(** * A shallow embedding of [lib/util/log.js]

    The leveled logger of twilio-video.js: a [Log] instance gates messages by
    the level configured for its module in a level table that it shares, by
    reference, with every instance created from it.

    The file has four parts: the fragment of the JavaScript runtime the
    logger relies on (values, strings, numbers, objects on a heap), the
    logger itself (one definition per source function, same names), the
    supporting lemmas, and the properties of the logger. *)

From Stdlib Require Import ZArith String Ascii List Bool Lia.
From Stdlib Require Import DecimalString DecimalPos DecimalZ.
From stdpp Require Import gmap.

Import ListNotations.
Local Open Scope Z_scope.

(* ===================================================================== *)
(** * 1. The JavaScript fragment                                          *)
(* ===================================================================== *)

(** ** Numbers

    Level ranks are integers.  A number is an integral double [Int z], one
    of the two infinities, or [NaN]; non-integral doubles do not occur in
    the logger and are not represented.  [Int z] is exact for the safe
    integers, [|z| <= 2^53 - 1], which doubles represent one to one and
    print in plain decimal notation. *)
Inductive JsNum : Type :=
| NaN
| PosInf
| NegInf
| Int (z : Z).

(** [Number.MAX_SAFE_INTEGER]. *)
Definition MAX_SAFE_INTEGER : Z := 2 ^ 53 - 1.

Definition safe_integer (z : Z) : Prop :=
  - MAX_SAFE_INTEGER <= z <= MAX_SAFE_INTEGER.

(** Object references. *)
Abbreviation loc := positive.

(** ** Values *)
Inductive JsVal : Type :=
| VUndefined
| VNull
| VBool (b : bool)
| VNumber (n : JsNum)
| VString (s : string)
| VObject (l : loc).

(** [typeof v]. *)
Definition typeof (v : JsVal) : string :=
  match v with
  | VUndefined => "undefined"
  | VNull => "object"
  | VBool _ => "boolean"
  | VNumber _ => "number"
  | VString _ => "string"
  | VObject _ => "object"
  end.

(** [ToBoolean v]: the falsy values are [undefined], [null], [false], [0],
    [NaN] and the empty string. *)
Definition truthy (v : JsVal) : bool :=
  match v with
  | VUndefined | VNull => false
  | VBool b => b
  | VNumber NaN => false
  | VNumber (Int z) => negb (z =? 0)
  | VNumber _ => true
  | VString s => negb (String.eqb s "")
  | VObject _ => true
  end.

(** [a <= b] on numbers: every comparison with [NaN] is false. *)
Definition num_le (a b : JsNum) : bool :=
  match a, b with
  | NaN, _ | _, NaN => false
  | NegInf, _ => true
  | _, PosInf => true
  | PosInf, _ => false
  | _, NegInf => false
  | Int x, Int y => x <=? y
  end.

(** [a > b] on numbers. *)
Definition num_gt (a b : JsNum) : bool :=
  match a, b with
  | NaN, _ | _, NaN => false
  | PosInf, PosInf => false
  | PosInf, _ => true
  | _, PosInf => false
  | NegInf, _ => false
  | _, NegInf => true
  | Int x, Int y => y <? x
  end.

(** ** Strings

    Strings are sequences of 8-bit characters; case mapping and white space
    are those of ASCII. *)

Definition is_lower (c : ascii) : bool :=
  let n := nat_of_ascii c in (97 <=? n)%nat && (n <=? 122)%nat.

Definition is_upper (c : ascii) : bool :=
  let n := nat_of_ascii c in (65 <=? n)%nat && (n <=? 90)%nat.

Definition upper_char (c : ascii) : ascii :=
  if is_lower c then ascii_of_nat (nat_of_ascii c - 32) else c.

Definition lower_char (c : ascii) : ascii :=
  if is_upper c then ascii_of_nat (nat_of_ascii c + 32) else c.

(** [s.toUpperCase()]. *)
Fixpoint toUpperCase (s : string) : string :=
  match s with
  | EmptyString => EmptyString
  | String c r => String (upper_char c) (toUpperCase r)
  end.

Definition is_digit (c : ascii) : bool :=
  let n := nat_of_ascii c in (48 <=? n)%nat && (n <=? 57)%nat.

Definition is_hex_digit (c : ascii) : bool :=
  let n := nat_of_ascii c in
  is_digit c || ((65 <=? n)%nat && (n <=? 70)%nat)
             || ((97 <=? n)%nat && (n <=? 102)%nat).

Definition is_octal_digit (c : ascii) : bool :=
  let n := nat_of_ascii c in (48 <=? n)%nat && (n <=? 55)%nat.

Definition is_binary_digit (c : ascii) : bool :=
  let n := nat_of_ascii c in (48 <=? n)%nat && (n <=? 49)%nat.

(** Tab, line feed, vertical tab, form feed, carriage return, space. *)
Definition is_ws (c : ascii) : bool :=
  let n := nat_of_ascii c in
  ((9 <=? n)%nat && (n <=? 13)%nat) || (n =? 32)%nat.

Fixpoint skip_ws (s : string) : string :=
  match s with
  | String c r => if is_ws c then skip_ws r else s
  | EmptyString => EmptyString
  end.

Fixpoint trim_end (s : string) : string :=
  match s with
  | EmptyString => EmptyString
  | String c r =>
      let r' := trim_end r in
      if is_ws c && String.eqb r' "" then EmptyString else String c r'
  end.

Definition trim (s : string) : string := trim_end (skip_ws s).

Fixpoint skip_digits (s : string) : string :=
  match s with
  | String c r => if is_digit c then skip_digits r else s
  | EmptyString => EmptyString
  end.

Definition starts_with_digit (s : string) : bool :=
  match s with
  | String c _ => is_digit c
  | EmptyString => false
  end.

Fixpoint string_forallb (p : ascii -> bool) (s : string) : bool :=
  match s with
  | EmptyString => true
  | String c r => p c && string_forallb p r
  end.

(** The grammar of [StringNumericLiteral] (ECMAScript 2015, 7.1.3.1), as a
    recogniser: [ToNumber] of a string is [NaN] exactly when the string is
    not in the grammar. *)

(** [ExponentPart], optional, then the end of the string. *)
Definition is_exponent_opt (s : string) : bool :=
  match s with
  | EmptyString => true
  | String c r =>
      if Ascii.eqb c "e" || Ascii.eqb c "E" then
        let r' := match r with
                  | String "+" t => t
                  | String "-" t => t
                  | _ => r
                  end in
        starts_with_digit r' && String.eqb (skip_digits r') ""
      else false
  end.

(** [StrUnsignedDecimalLiteral]. *)
Definition is_unsigned_decimal (s : string) : bool :=
  if String.eqb s "Infinity" then true
  else
    match skip_digits s with
    | String "." r2 =>
        (starts_with_digit s || starts_with_digit r2)
        && is_exponent_opt (skip_digits r2)
    | r1 => starts_with_digit s && is_exponent_opt r1
    end.

(** [StrDecimalLiteral]: an optional sign. *)
Definition is_decimal_literal (s : string) : bool :=
  match s with
  | String "+" r => is_unsigned_decimal r
  | String "-" r => is_unsigned_decimal r
  | _ => is_unsigned_decimal s
  end.

(** [HexIntegerLiteral], [OctalIntegerLiteral], [BinaryIntegerLiteral]. *)
Definition is_radix_literal (s : string) : bool :=
  match s with
  | String "0" (String x (String d r)) =>
      let body := String d r in
      if Ascii.eqb x "x" || Ascii.eqb x "X" then string_forallb is_hex_digit body
      else if Ascii.eqb x "o" || Ascii.eqb x "O" then string_forallb is_octal_digit body
      else if Ascii.eqb x "b" || Ascii.eqb x "B" then string_forallb is_binary_digit body
      else false
  | _ => false
  end.

(** [!isNaN(Number(s))] for a string [s]: white space only converts to 0. *)
Definition is_numeric_string (s : string) : bool :=
  let t := trim s in
  String.eqb t "" || is_decimal_literal t || is_radix_literal t.

(** Decimal digits. *)
Definition digit_of (c : ascii) : option (Decimal.uint -> Decimal.uint) :=
  if Ascii.eqb c "0" then Some Decimal.D0
  else if Ascii.eqb c "1" then Some Decimal.D1
  else if Ascii.eqb c "2" then Some Decimal.D2
  else if Ascii.eqb c "3" then Some Decimal.D3
  else if Ascii.eqb c "4" then Some Decimal.D4
  else if Ascii.eqb c "5" then Some Decimal.D5
  else if Ascii.eqb c "6" then Some Decimal.D6
  else if Ascii.eqb c "7" then Some Decimal.D7
  else if Ascii.eqb c "8" then Some Decimal.D8
  else if Ascii.eqb c "9" then Some Decimal.D9
  else None.

(** The longest prefix of decimal digits. *)
Fixpoint digits_prefix (s : string) : Decimal.uint :=
  match s with
  | EmptyString => Decimal.Nil
  | String c r =>
      match digit_of c with
      | Some d => d (digits_prefix r)
      | None => Decimal.Nil
      end
  end.

(** [parseInt(s, 10)] on a string: leading white space, an optional sign,
    then the longest prefix of decimal digits; [NaN] when there is none.
    With the radix given as 10 no [0x] prefix is recognised.  The result is
    the mathematical value of the digits. *)
Definition parseInt10 (s : string) : JsNum :=
  let s1 := skip_ws s in
  let '(neg, s2) :=
    match s1 with
    | String "-" r => (true, r)
    | String "+" r => (false, r)
    | _ => (false, s1)
    end in
  match digits_prefix s2 with
  | Decimal.Nil => NaN
  | u => Int (if neg : bool then - Z.of_uint u else Z.of_uint u)
  end.

(** [String(n)] for a number. *)
Definition num_to_string (n : JsNum) : string :=
  match n with
  | NaN => "NaN"
  | PosInf => "Infinity"
  | NegInf => "-Infinity"
  | Int z => NilZero.string_of_int (Z.to_int z)
  end.

(** [s.split(sep)] for a one-character separator. *)
Fixpoint split_on (sep : ascii) (s : string) : list string :=
  match s with
  | EmptyString => [EmptyString]
  | String c r =>
      if Ascii.eqb c sep then EmptyString :: split_on sep r
      else match split_on sep r with
           | p :: ps => String c p :: ps
           | [] => [String c EmptyString]
           end
  end.

(** ** Objects and the heap

    An object is given by its own enumerable data properties, in the order
    in which [Object.keys] lists them, and by the methods the logger calls
    on objects it is handed: [toString] (every object has one; the default
    prints ["[object Object]"]), [clone] and [toUpperCase] (both optional).
    A method reads the properties of its receiver.  Function values occur
    only as these methods: a data property never holds a function, so a
    data property named [clone] or [toUpperCase] is not callable.  Every
    object inherits from [Object.prototype]; its members are found by a
    property read ([property_read]) and by the [in] operator. *)
Definition Props := list (string * JsVal).

#[warnings="-register-all"] Inductive JsObject : Type := mkObject {
  props : Props;
  toStringFn : Props -> string;
  cloneFn : option (Props -> JsVal -> JsObject);
  toUpperCaseFn : option (Props -> string)
}.

Definition with_props (o : JsObject) (ps : Props) : JsObject :=
  {| props := ps; toStringFn := toStringFn o; cloneFn := cloneFn o;
     toUpperCaseFn := toUpperCaseFn o |}.

(** The object literal [{}]. *)
Definition empty_object : JsObject :=
  {| props := []; toStringFn := fun _ => "[object Object]"%string; cloneFn := None;
     toUpperCaseFn := None |}.

#[global] Instance JsObject_inhabited : Inhabited JsObject := populate empty_object.

Abbreviation Heap := (gmap loc JsObject).

(** [o[k]] on own properties: [undefined] when there is none. *)
Fixpoint prop_get (ps : Props) (k : string) : JsVal :=
  match ps with
  | [] => VUndefined
  | (k', v) :: r => if String.eqb k' k then v else prop_get r k
  end.

(** [o[k] = v]: overwrite in place, or add the property at the end. *)
Fixpoint prop_set (ps : Props) (k : string) (v : JsVal) : Props :=
  match ps with
  | [] => [(k, v)]
  | (k', v') :: r =>
      if String.eqb k' k then (k, v) :: r else (k', v') :: prop_set r k v
  end.

(** [Object.keys(o)]. *)
Definition Object_keys (ps : Props) : list string := map fst ps.

(** The names of the members of [Object.prototype]: ten functions, and the
    accessor [__proto__], which reads as the prototype object. *)
Definition Object_prototype_members : list string :=
  [ "constructor"; "toString"; "toLocaleString"; "valueOf"; "hasOwnProperty";
    "isPrototypeOf"; "propertyIsEnumerable"; "__defineGetter__";
    "__defineSetter__"; "__lookupGetter__"; "__lookupSetter__";
    "__proto__" ]%string.

Definition is_inherited (k : string) : bool :=
  existsb (String.eqb k) Object_prototype_members.

(** What [o[k]] evaluates to: the own data property when there is one, else
    the member of that name inherited from [Object.prototype], a built-in
    function or the prototype object, else [undefined]. *)
Inductive PropertyValue : Type :=
| Data (v : JsVal)
| Builtin (member : string).

Definition property_read (ps : Props) (k : string) : PropertyValue :=
  if existsb (String.eqb k) (Object_keys ps) then Data (prop_get ps k)
  else if is_inherited k then Builtin k
  else Data VUndefined.

(** [Object.assign(target, source)]: every own enumerable property of the
    source is written to the target, in key order. *)
Definition Object_assign (target source : Props) : Props :=
  fold_left (fun t k => prop_set t k (prop_get source k))
            (Object_keys source) target.

(** [String(v)]; an object is converted by its [toString] method. *)
Definition ToString (h : Heap) (v : JsVal) : string :=
  match v with
  | VUndefined => "undefined"
  | VNull => "null"
  | VBool true => "true"
  | VBool false => "false"
  | VNumber n => num_to_string n
  | VString s => s
  | VObject l => let o := h !!! l in toStringFn o (props o)
  end.

(** [v.toUpperCase()]: [None] when [v] has no such method to call, which
    raises a [TypeError].  A string has the method of [String.prototype]; an
    object has it when it carries one. *)
Definition toUpperCase_call (h : Heap) (v : JsVal) : option string :=
  match v with
  | VString s => Some (toUpperCase s)
  | VObject l =>
      let o := h !!! l in
      match toUpperCaseFn o with
      | Some f => Some (f (props o))
      | None => None
      end
  | _ => None
  end.

(** The global [isNaN(v)], that is [Number(v)] is [NaN]. *)
Definition isNaN (h : Heap) (v : JsVal) : bool :=
  match v with
  | VUndefined => true
  | VNull => false
  | VBool _ => false
  | VNumber NaN => true
  | VNumber _ => false
  | VString s => negb (is_numeric_string s)
  | VObject _ => negb (is_numeric_string (ToString h v))
  end.

(** [parseInt(v, 10)]: the argument is converted to a string first. *)
Definition parseInt (h : Heap) (v : JsVal) : JsNum := parseInt10 (ToString h v).

Definition nat_to_string (n : nat) : string :=
  NilZero.string_of_uint (Nat.to_uint n).

(** The index properties of a string. *)
Fixpoint string_index_props (i : nat) (s : string) : Props :=
  match s with
  | EmptyString => []
  | String c r =>
      (nat_to_string i, VString (String c EmptyString))
        :: string_index_props (S i) r
  end.

(** The own enumerable properties of [ToObject(v)]; [None] when [v] is
    [undefined] or [null], for which [ToObject] raises a [TypeError]. *)
Definition own_props (h : Heap) (v : JsVal) : option Props :=
  match v with
  | VUndefined | VNull => None
  | VBool _ | VNumber _ => Some []
  | VString s => Some (string_index_props 0 s)
  | VObject l => Some (props (h !!! l))
  end.

(** ** Exceptions and results *)

Inductive Exception : Type :=
| InvalidArgument (message : string)
| TypeError
| Thrown (v : JsVal).

Inductive Result (A : Type) : Type :=
| Return (a : A)
| Throw (e : Exception).
Arguments Return {A} a.
Arguments Throw {A} e.

(** Modelled from the spec: the error taxonomy of [./constants]
    ([constants.twilioErrors]) is not part of the sources.  It supplies a
    well-known [InvalidArgument]-kind error with a clone-with-message
    capability; [E.INVALID_ARGUMENT.clone(msg)] is the [InvalidArgument]
    error carrying [msg]. *)
Definition E_INVALID_ARGUMENT_clone (msg : string) : Exception :=
  InvalidArgument msg.

(** ** The console and the world *)

Inductive Sink : Type :=
| console_log
| console_info
| console_warn
| console_error
| noop.

(** One call [logFn.apply(console, args)]. *)
Definition SinkCall : Type := (Sink * list JsVal)%type.

(** The state the logger runs in: the heap, the calls made to the sinks so
    far (oldest first), and what [new Date().toISOString()] returns. *)
Record World : Type := mkWorld {
  heap : Heap;
  console : list SinkCall;
  now_iso : string
}.

Definition set_heap (h : Heap) (w : World) : World :=
  {| heap := h; console := console w; now_iso := now_iso w |}.

Definition emit (c : SinkCall) (w : World) : World :=
  {| heap := heap w; console := console w ++ [c]; now_iso := now_iso w |}.

(** [prefix.concat(message)]: an array argument contributes its elements,
    any other value is appended as it is.  Arrays occur in the logger only
    as this argument. *)
Inductive Message : Type :=
| MsgArray (items : list JsVal)
| MsgValue (v : JsVal).

Definition concat_arg (m : Message) : list JsVal :=
  match m with
  | MsgArray items => items
  | MsgValue v => [v]
  end.

(* ===================================================================== *)
(** * 2. The logger                                                       *)
(* ===================================================================== *)

(** ** Singleton constants *)

Definition Log_DEBUG : JsNum := Int 0.
Definition Log_INFO : JsNum := Int 1.
Definition Log_WARN : JsNum := Int 2.
Definition Log_ERROR : JsNum := Int 3.
Definition Log_OFF : JsNum := Int 4.

(** A level descriptor of [Log._levels]. *)
Record LevelSpec : Type := mkLevel {
  name : string;
  logFn : Sink
}.

Definition _levels : list LevelSpec :=
  [ {| name := "DEBUG"; logFn := console_log |};
    {| name := "INFO"; logFn := console_info |};
    {| name := "WARN"; logFn := console_warn |};
    {| name := "ERROR"; logFn := console_error |};
    {| name := "OFF"; logFn := noop |} ].

(** [Log._levels[logLevel]] for a number: [None] is [undefined]. *)
Definition levels_at (logLevel : JsNum) : option LevelSpec :=
  match logLevel with
  | Int z => if 0 <=? z then nth_error _levels (Z.to_nat z) else None
  | _ => None
  end.

(** [Log[name]] restricted to the level constants: [None] is [undefined]. *)
Definition Log_static (nm : string) : option JsNum :=
  if String.eqb nm "DEBUG" then Some Log_DEBUG
  else if String.eqb nm "INFO" then Some Log_INFO
  else if String.eqb nm "WARN" then Some Log_WARN
  else if String.eqb nm "ERROR" then Some Log_ERROR
  else if String.eqb nm "OFF" then Some Log_OFF
  else None.

Definition LOG_LEVEL_NAMES : list string := map name _levels.

(** [LOG_LEVELS_SET[level.name] = true] for every level. *)
Definition LOG_LEVELS_SET : Props :=
  fold_left (fun set level => prop_set set (name level) (VBool true))
            _levels [].

(** [xs.join(sep)]. *)
Fixpoint join (sep : string) (xs : list string) : string :=
  match xs with
  | [] => EmptyString
  | [x] => x
  | x :: r => String.append x (String.append sep (join sep r))
  end.

Definition INVALID_LOG_LEVEL_MESSAGE : string :=
  String.append "Log level must be one of: ["
    (String.append (join "," LOG_LEVEL_NAMES) "]").

(** [level in LOG_LEVELS_SET]: the [in] operator finds own and inherited
    members alike. *)
Definition in_LOG_LEVELS_SET (level : string) : bool :=
  existsb (String.eqb level) (Object_keys LOG_LEVELS_SET) || is_inherited level.

Definition validateLogLevel (level : string) : Result unit :=
  if negb (in_LOG_LEVELS_SET level) then
    Throw (E_INVALID_ARGUMENT_clone INVALID_LOG_LEVEL_MESSAGE)
  else Return tt.

(** [keys.forEach(f)] for a callback that may throw. *)
Fixpoint forEach {A : Type} (f : A -> Result unit) (xs : list A) : Result unit :=
  match xs with
  | [] => Return tt
  | x :: r =>
      match f x with
      | Return _ => forEach f r
      | Throw e => Throw e
      end
  end.

(** [validateLogLevel(levels[moduleName].toUpperCase())]: the key is an own
    key of [levels]; whatever [toUpperCase] returns is validated. *)
Definition validate_entry (h : Heap) (ps : Props) (moduleName : string)
  : Result unit :=
  match toUpperCase_call h (prop_get ps moduleName) with
  | Some level => validateLogLevel level
  | None => Throw TypeError
  end.

Definition validateLogLevels (h : Heap) (levels : JsVal) : Result unit :=
  match own_props h levels with
  | None => Throw TypeError
  | Some ps => forEach (validate_entry h ps) (Object_keys ps)
  end.

(** ** [Log.getLevelByName]

    A name that passes [validateLogLevel] is one of the level constants, and
    [Log[name]] its rank, or it is the name of a member of
    [Object.prototype], which only a [toUpperCase] method of an object can
    return (lemma [toUpperCase_not_inherited]); [Log[name]] is then a
    built-in function, which as a level converts to [NaN] in the comparison
    of [log] and is returned here as [NaN]. *)
Definition getLevelByName (h : Heap) (nm : JsVal) : Result JsNum :=
  if negb (isNaN h nm) then Return (parseInt h nm)
  else
    match toUpperCase_call h nm with
    | Some nm' =>
        match validateLogLevel nm' with
        | Throw e => Throw e
        | Return _ =>
            match Log_static nm' with
            | Some rank => Return rank
            | None => Return NaN
            end
        end
    | None => Throw TypeError
    end.

(** ** Instances

    [name] is a getter whose function is [component.toString.bind(component)]:
    the [toString] function found on the component when the instance is
    constructed, bound to the component. *)
Inductive BoundToString : Type :=
| BoundPrimitive (s : string)
| BoundMethod (f : Props -> string) (receiver : loc).

Definition bind_toString (h : Heap) (component : JsVal) : BoundToString :=
  match component with
  | VObject l => BoundMethod (toStringFn (h !!! l)) l
  | v => BoundPrimitive (ToString h v)
  end.

Definition call_bound (h : Heap) (b : BoundToString) : string :=
  match b with
  | BoundPrimitive s => s
  | BoundMethod f l => f (props (h !!! l))
  end.

Record LogInstance : Type := mkLog {
  inst_moduleName : JsVal;
  _logLevels : loc;
  inst_name : BoundToString
}.

(** [this.name]. *)
Definition name_get (this : LogInstance) (h : Heap) : string :=
  call_bound h (inst_name this).

Section Logger.

(** [constants.DEFAULT_LOG_LEVEL] of [./constants], which is not part of
    the sources. *)
Variable DEFAULT_LOG_LEVEL : JsVal.

(** [this.logLevel]:
    [Log.getLevelByName(logLevels[moduleName] || DEFAULT_LOG_LEVEL)].  When
    the read finds a member inherited from [Object.prototype], that
    built-in, which is truthy, is what [getLevelByName] is given: it
    converts to [NaN] and has no [toUpperCase] method, so line 110 raises a
    [TypeError]. *)
Definition logLevel_get (this : LogInstance) (h : Heap) : Result JsNum :=
  match property_read (props (h !!! _logLevels this))
          (ToString h (inst_moduleName this)) with
  | Data configured =>
      getLevelByName h
        (if truthy configured then configured else DEFAULT_LOG_LEVEL)
  | Builtin _ => Throw TypeError
  end.

(** ** The constructor [Log(moduleName, component, logLevels)] *)
Definition Log (moduleName component logLevels : JsVal) (w : World)
  : Result LogInstance * World :=
  if negb (String.eqb (typeof moduleName) "string") && truthy moduleName then
    (Throw (E_INVALID_ARGUMENT_clone (String.append "module name" " is not a string")), w)
  else if negb (truthy component) then
    (Throw (E_INVALID_ARGUMENT_clone (String.append "component" " is required")), w)
  else
    let '(logLevels, h) :=
      if negb (String.eqb (typeof logLevels) "object") then
        let l := fresh (dom (heap w)) in
        (VObject l, <[l := empty_object]> (heap w))
      else (logLevels, heap w) in
    match validateLogLevels h logLevels with
    | Throw e => (Throw e, set_heap h w)
    | Return _ =>
        match logLevels with
        | VObject l =>
            (Return {| inst_moduleName := moduleName;
                       _logLevels := l;
                       inst_name := bind_toString h component |},
             set_heap h w)
        | _ => (Throw TypeError, set_heap h w)
        end
    end.

(** ** [Log.prototype.createLog] *)
Definition createLog (this : LogInstance) (moduleName component : JsVal)
  : World -> Result LogInstance * World :=
  Log moduleName component (VObject (_logLevels this)).

(** ** [Log.prototype.setLevels] *)
Definition setLevels (this : LogInstance) (levels : JsVal) (w : World)
  : Result LogInstance * World :=
  match validateLogLevels (heap w) levels with
  | Throw e => (Throw e, w)
  | Return _ =>
      let source := default [] (own_props (heap w) levels) in
      let l := _logLevels this in
      let table := heap w !!! l in
      (Return this,
       set_heap (<[l := with_props table (Object_assign (props table) source)]> (heap w)) w)
  end.

(** ** [Log.prototype.log] *)
Definition log (this : LogInstance) (logLevel : JsNum) (message : Message)
    (w : World) : Result LogInstance * World :=
  match levels_at logLevel with
  | None => (Throw (E_INVALID_ARGUMENT_clone "Invalid log level"), w)
  | Some logSpec =>
      match logLevel_get this (heap w) with
      | Throw e => (Throw e, w)
      | Return current =>
          if num_le current logLevel then
            let levelName := name logSpec in
            let prefix :=
              map VString (split_on "T" (now_iso w)) ++
              [ VString "|"; VString levelName; VString "in";
                VString (String.append (name_get this (heap w)) ":") ] in
            (Return this, emit (logFn logSpec, prefix ++ concat_arg message) w)
          else (Return this, w)
      end
  end.

(** ** The wrappers: the arguments are passed on as one array *)
Definition debug (this : LogInstance) (arguments : list JsVal) :=
  log this Log_DEBUG (MsgArray arguments).

Definition info (this : LogInstance) (arguments : list JsVal) :=
  log this Log_INFO (MsgArray arguments).

Definition warn (this : LogInstance) (arguments : list JsVal) :=
  log this Log_WARN (MsgArray arguments).

Definition error (this : LogInstance) (arguments : list JsVal) :=
  log this Log_ERROR (MsgArray arguments).

(** ** [Log.prototype.throw] *)

(** [error.clone], for an [error] on which the property can be read: the
    method when the object carries one, else its data property of that name;
    a primitive has none. *)
Inductive CloneProperty : Type :=
| CloneMethod (clone : Props -> JsVal -> JsObject)
| CloneData (v : JsVal).

Definition clone_property (h : Heap) (error : JsVal) : CloneProperty :=
  match error with
  | VObject l =>
      let o := h !!! l in
      match cloneFn o with
      | Some clone => CloneMethod clone
      | None => CloneData (prop_get (props o) "clone")
      end
  | _ => CloneData VUndefined
  end.

(** [if (error.clone) { error = error.clone(customMessage); }]: the clone
    of an object is a new object; calling a truthy [clone] that is not a
    function raises a [TypeError]. *)
Definition clone_if_supported (error customMessage : JsVal) (w : World)
  : Result JsVal * World :=
  match clone_property (heap w) error with
  | CloneMethod clone =>
      match error with
      | VObject l =>
          let l' := fresh (dom (heap w)) in
          (Return (VObject l'),
           set_heap (<[l' := clone (props (heap w !!! l)) customMessage]> (heap w)) w)
      | _ => (Return error, w)
      end
  | CloneData v =>
      if truthy v then (Throw TypeError, w) else (Return error, w)
  end.

(** Reading [error.clone] raises a [TypeError] when [error] is [undefined]
    or [null]. *)
Definition throwFn (this : LogInstance) (error customMessage : JsVal)
    (w : World) : Result unit * World :=
  match error with
  | VUndefined | VNull => (Throw TypeError, w)
  | _ =>
      match clone_if_supported error customMessage w with
      | (Throw e, w1) => (Throw e, w1)
      | (Return error, w1) =>
          match log this Log_ERROR (MsgValue error) w1 with
          | (Throw e, w2) => (Throw e, w2)
          | (Return _, w2) => (Throw (Thrown error), w2)
          end
      end
  end.

End Logger.

(** ** Notions used in the statements *)

(** All spellings of a name, letter by letter in either case. *)
Fixpoint case_variants (u : string) : list string :=
  match u with
  | EmptyString => [EmptyString]
  | String c r =>
      flat_map (fun t => [String c t; String (lower_char c) t])
               (case_variants r)
  end.

(** Every spelling of every level name, by enumeration. *)
Definition level_spellings : list string :=
  flat_map case_variants LOG_LEVEL_NAMES.

(** A value that passes validation: a string spelling a level name. *)
Definition valid_level (v : JsVal) : Prop :=
  exists s, v = VString s /\ In (toUpperCase s) LOG_LEVEL_NAMES.

(** A value that validation accepts: its [toUpperCase] method returns a
    name that is in the set of level names. *)
Definition accepted (h : Heap) (v : JsVal) : Prop :=
  exists level, toUpperCase_call h v = Some level /\
                validateLogLevel level = Return tt.

(** A value that is not an object. *)
Definition primitive (v : JsVal) : Prop := forall l, v <> VObject l.

(** An object all of whose own values are strings spelling level names. *)
Definition names_only (ps : Props) : Prop :=
  forall k, In k (Object_keys ps) -> valid_level (prop_get ps k).


(** The module name is acceptable to the constructor: a string, or falsy. *)
Definition moduleName_ok (moduleName : JsVal) : bool :=
  String.eqb (typeof moduleName) "string" || negb (truthy moduleName).

(** ** A sample configuration, to exercise the statements

    The default level is ["warn"], as in twilio-video.js.  Location 1 holds a
    level table, locations 2 and 3 mappings to pass to [setLevels], location
    4 a component whose [toString] prints its [id], location 5 an error with
    a [clone] method, location 6 one without, location 7 a mapping with
    an unrecognised name before a number, and location 8 a mapping of
    strings, one of them unrecognised. *)
Definition sample_default : JsVal := VString "warn".

Definition sample_component : JsObject :=
  {| props := [("id"%string, VString "A")];
     toStringFn := fun ps =>
       match prop_get ps "id" with VString s => s | _ => EmptyString end;
     cloneFn := None;
     toUpperCaseFn := None |}.

Definition sample_error_toString (ps : Props) : string :=
  match prop_get ps "message" with VString s => s | _ => EmptyString end.

Definition sample_error : JsObject :=
  {| props := [("message"%string, VString "invalid")];
     toStringFn := sample_error_toString;
     cloneFn := Some (fun ps customMessage =>
       {| props := prop_set ps "message" customMessage;
          toStringFn := sample_error_toString;
          cloneFn := None;
          toUpperCaseFn := None |});
     toUpperCaseFn := None |}.

Definition sample_heap : Heap :=
  <[1%positive := with_props empty_object [("media"%string, VString "info")]]>
  (<[2%positive := with_props empty_object
       [("media"%string, VString "debug"); ("signaling"%string, VString "OFF")]]>
  (<[3%positive := with_props empty_object
       [("media"%string, VString "error"); ("signaling"%string, VNumber (Int 2))]]>
  (<[4%positive := sample_component]>
  (<[5%positive := sample_error]>
  (<[6%positive := with_props empty_object [("message"%string, VString "plain")]]>
  (<[7%positive := with_props empty_object
       [("media"%string, VString "verbose"); ("signaling"%string, VNumber (Int 2))]]>
  (<[8%positive := with_props empty_object
       [("media"%string, VString "warn"); ("signaling"%string, VString "verbose")]]>
   ∅))))))).

Definition sample_world : World :=
  {| heap := sample_heap; console := []; now_iso := "2020-01-02T03:04:05.678Z" |}.

(** [new Log('media', 'room', table)] and its child
    [root.createLog('signaling', 'pc')]. *)
Definition sample_root : LogInstance :=
  {| inst_moduleName := VString "media";
     _logLevels := 1%positive;
     inst_name := BoundPrimitive "room" |}.

Definition sample_child : LogInstance :=
  {| inst_moduleName := VString "signaling";
     _logLevels := 1%positive;
     inst_name := BoundPrimitive "pc" |}.

(** [new Log('constructor', 'room', table)]: the module name is the name
    of a member of [Object.prototype]. *)
Definition sample_inherited : LogInstance :=
  {| inst_moduleName := VString "constructor";
     _logLevels := 1%positive;
     inst_name := BoundPrimitive "room" |}.

(** An instance whose module is switched off: its table, at location 2,
    maps ["signaling"] to ["OFF"]. *)
Definition sample_silent : LogInstance :=
  {| inst_moduleName := VString "signaling";
     _logLevels := 2%positive;
     inst_name := BoundPrimitive "pc" |}.

(** An instance logging for the component at location 4. *)
Definition sample_named : LogInstance :=
  {| inst_moduleName := VString "media";
     _logLevels := 1%positive;
     inst_name := BoundMethod (toStringFn sample_component) 4%positive |}.

(** The sample heap after [component.id = 'B']. *)
Definition sample_heap_renamed : Heap :=
  <[4%positive := with_props sample_component [("id"%string, VString "B")]]>
    sample_heap.


(** A world whose only object, at location 1, maps ["media"] to the
    numeric string ["2"]. *)
Definition sample_world_numeric : World :=
  set_heap (<[1%positive := with_props empty_object
                [("media"%string, VString "2")]]> ∅) sample_world.

(** A world with an error object, at location 10, whose [clone] is the
    number 5. *)
Definition sample_world_clone_data : World :=
  set_heap
    (<[10%positive := with_props empty_object
          [("clone"%string, VNumber (Int 5))]]> sample_heap)
    sample_world.

(** A world in which the table, at location 1, carries a [toUpperCase]
    method that returns its own ["media"] entry, and the mapping at location
    2 holds that table as a value; the mapping at location 3 sets ["media"]
    only. *)
Definition sample_world_selfref : World :=
  set_heap
    (<[1%positive :=
         {| props := [("media"%string, VString "WARN")];
            toStringFn := fun _ => "[object Object]"%string;
            cloneFn := None;
            toUpperCaseFn := Some (fun ps =>
              match prop_get ps "media" with
              | VString s => s
              | _ => EmptyString
              end) |}]>
     (<[2%positive := with_props empty_object
          [("media"%string, VString "warn");
           ("signaling"%string, VObject 1%positive)]]>
     (<[3%positive := with_props empty_object
          [("media"%string, VString "debug")]]> ∅)))
    sample_world.

(** ** The logger as a transition system

    A level table is in order when its object is allocated and all its own
    values are strings spelling level names.  One step of the interface is
    one call of the constructor, of [createLog], [setLevels], [log] (the
    wrappers are calls of [log]) or [throwFn], by any instance, with any
    outcome and any arguments, except that the values of a mapping passed to
    [setLevels] are not objects. *)
Definition table_valid (h : Heap) (l : loc) : Prop :=
  is_Some (h !! l) /\ names_only (props (h !!! l)).

Inductive api_step (dflt : JsVal) : World -> World -> Prop :=
| step_Log (moduleName component logLevels : JsVal) (w w' : World)
    (r : Result LogInstance) :
    Log moduleName component logLevels w = (r, w') -> api_step dflt w w'
| step_createLog (this : LogInstance) (moduleName component : JsVal)
    (w w' : World) (r : Result LogInstance) :
    createLog this moduleName component w = (r, w') -> api_step dflt w w'
| step_setLevels (this : LogInstance) (levels : JsVal) (w w' : World)
    (r : Result LogInstance) :
    (forall src k, own_props (heap w) levels = Some src ->
                   primitive (prop_get src k)) ->
    setLevels this levels w = (r, w') -> api_step dflt w w'
| step_log (this : LogInstance) (logLevel : JsNum) (message : Message)
    (w w' : World) (r : Result LogInstance) :
    log dflt this logLevel message w = (r, w') -> api_step dflt w w'
| step_throwFn (this : LogInstance) (error customMessage : JsVal)
    (w w' : World) (r : Result unit) :
    throwFn dflt this error customMessage w = (r, w') -> api_step dflt w w'.

(* ===================================================================== *)
(** * 3. Supporting lemmas                                                *)
(* ===================================================================== *)

(** ** Case mapping and level names *)

Lemma upper_char_inv (c u : ascii) :
  upper_char c = u -> c = u \/ c = lower_char u.
Proof.
  intros <-.
  destruct c as [b0 b1 b2 b3 b4 b5 b6 b7].
  destruct b0, b1, b2, b3, b4, b5, b6, b7;
    vm_compute; first [ left; reflexivity | right; reflexivity ].
Qed.

Lemma toUpperCase_inv (s u : string) :
  toUpperCase s = u -> In s (case_variants u).
Proof.
  revert u. induction s as [|c s IH]; intros u Hu; simpl in Hu; subst u.
  - simpl. auto.
  - simpl. apply in_flat_map. exists s. split; [apply IH; reflexivity|].
    destruct (upper_char_inv c _ eq_refl) as [Hc|Hc].
    + left. f_equal. symmetry. exact Hc.
    + right. left. f_equal. symmetry. exact Hc.
Qed.

Lemma upper_char_idem (c : ascii) : upper_char (upper_char c) = upper_char c.
Proof.
  destruct c as [b0 b1 b2 b3 b4 b5 b6 b7].
  destruct b0, b1, b2, b3, b4, b5, b6, b7; vm_compute; reflexivity.
Qed.

Lemma toUpperCase_idem (s : string) :
  toUpperCase (toUpperCase s) = toUpperCase s.
Proof.
  induction s as [|c s IH]; simpl; [reflexivity|].
  rewrite upper_char_idem, IH. reflexivity.
Qed.

(** No upper-cased string is the name of a member of [Object.prototype]:
    each of these names has a lower-case letter. *)
Lemma toUpperCase_not_inherited (s : string) :
  is_inherited (toUpperCase s) = false.
Proof.
  destruct (is_inherited (toUpperCase s)) eqn:E; [|reflexivity].
  unfold is_inherited in E. apply existsb_exists in E as (x & Hx & He).
  apply String.eqb_eq in He. pose proof (toUpperCase_idem s) as Hi.
  rewrite He in Hi. simpl in Hx.
  repeat (destruct Hx as [<-|Hx]; [discriminate Hi|]). destruct Hx.
Qed.

Lemma in_LOG_LEVELS_SET_In (level : string) :
  in_LOG_LEVELS_SET level = true <->
  In level LOG_LEVEL_NAMES \/ is_inherited level = true.
Proof.
  unfold in_LOG_LEVELS_SET. rewrite orb_true_iff, existsb_exists. split.
  - intros [(x & Hx & He)|H]; [|right; exact H].
    apply String.eqb_eq in He. subst x. left. exact Hx.
  - intros [H|H]; [|right; exact H].
    left. exists level. split; [exact H | apply String.eqb_refl].
Qed.

Lemma in_LOG_LEVELS_SET_upper (s : string) :
  in_LOG_LEVELS_SET (toUpperCase s) = true <->
  In (toUpperCase s) LOG_LEVEL_NAMES.
Proof.
  rewrite in_LOG_LEVELS_SET_In, toUpperCase_not_inherited. split.
  - intros [H|H]; [exact H | discriminate].
  - intros H. left. exact H.
Qed.

Lemma valid_name_spelling (s : string) :
  In (toUpperCase s) LOG_LEVEL_NAMES -> In s level_spellings.
Proof.
  intros H. unfold level_spellings. apply in_flat_map.
  exists (toUpperCase s). split; [exact H | apply toUpperCase_inv; reflexivity].
Qed.

(** No spelling of a level name converts to a number. *)
Lemma level_name_not_numeric (s : string) :
  In (toUpperCase s) LOG_LEVEL_NAMES -> is_numeric_string s = false.
Proof.
  intros H. apply valid_name_spelling in H.
  assert (Hall : forallb (fun t => negb (is_numeric_string t)) level_spellings = true)
    by (vm_compute; reflexivity).
  rewrite forallb_forall in Hall. specialize (Hall s H).
  apply negb_true_iff in Hall. exact Hall.
Qed.

(** A level name is one of the level constants. *)
Lemma validateLogLevel_static (nm : string) :
  In nm LOG_LEVEL_NAMES ->
  exists z, Log_static nm = Some (Int z) /\ 0 <= z <= 4.
Proof.
  simpl. intros Hin.
  destruct Hin as [<-|[<-|[<-|[<-|[<-|[]]]]]]; vm_compute; eexists; split;
    try reflexivity; split; discriminate.
Qed.

(** What a string upper-cases to passes validation exactly when it is a
    level name. *)
Lemma validateLogLevel_ok (s : string) :
  validateLogLevel (toUpperCase s) = Return tt <->
  In (toUpperCase s) LOG_LEVEL_NAMES.
Proof.
  unfold validateLogLevel. rewrite <- in_LOG_LEVELS_SET_upper.
  destruct (in_LOG_LEVELS_SET (toUpperCase s)); simpl; split; congruence.
Qed.

Lemma validateLogLevel_fail (nm : string) (e : Exception) :
  validateLogLevel nm = Throw e ->
  e = InvalidArgument INVALID_LOG_LEVEL_MESSAGE /\ ~ In nm LOG_LEVEL_NAMES.
Proof.
  unfold validateLogLevel.
  destruct (in_LOG_LEVELS_SET nm) eqn:E; simpl; [discriminate|].
  intros [= <-]. split; [reflexivity|]. intros Hin.
  assert (Ht : in_LOG_LEVELS_SET nm = true)
    by (apply in_LOG_LEVELS_SET_In; left; exact Hin).
  congruence.
Qed.

(** [getLevelByName] on strings, by cases. *)
Lemma getLevelByName_string (h : Heap) (s : string) :
  getLevelByName h (VString s) =
  if is_numeric_string s then Return (parseInt10 s)
  else match validateLogLevel (toUpperCase s) with
       | Throw e => Throw e
       | Return _ =>
           match Log_static (toUpperCase s) with
           | Some rank => Return rank
           | None => Return NaN
           end
       end.
Proof.
  unfold getLevelByName, isNaN, parseInt. simpl.
  destruct (is_numeric_string s); reflexivity.
Qed.

Lemma getLevelByName_name (h : Heap) (s : string) (rank : JsNum) :
  In (toUpperCase s) LOG_LEVEL_NAMES ->
  Log_static (toUpperCase s) = Some rank ->
  getLevelByName h (VString s) = Return rank.
Proof.
  intros Hin Hst. rewrite getLevelByName_string.
  rewrite (level_name_not_numeric s Hin).
  apply validateLogLevel_ok in Hin. rewrite Hin, Hst. reflexivity.
Qed.

(** ** Printing and parsing integers *)

Lemma digits_prefix_string_of_uint (u : Decimal.uint) :
  digits_prefix (NilEmpty.string_of_uint u) = u.
Proof. induction u; simpl; congruence. Qed.

Lemma skip_ws_string_of_uint (u : Decimal.uint) :
  skip_ws (NilEmpty.string_of_uint u) = NilEmpty.string_of_uint u.
Proof. destruct u; reflexivity. Qed.

Lemma parseInt10_uint (u : Decimal.uint) :
  u <> Decimal.Nil ->
  parseInt10 (NilEmpty.string_of_uint u) = Int (Z.of_uint u) /\
  parseInt10 (String "-" (NilEmpty.string_of_uint u)) = Int (- Z.of_uint u).
Proof.
  intros Hu. unfold parseInt10.
  destruct u; try congruence; simpl;
    rewrite digits_prefix_string_of_uint; split; reflexivity.
Qed.

Lemma string_of_uint_nonnil (u : Decimal.uint) :
  u <> Decimal.Nil -> NilZero.string_of_uint u = NilEmpty.string_of_uint u.
Proof. destruct u; simpl; congruence. Qed.

Lemma Z_of_uint_to_uint (p : positive) : Z.of_uint (Pos.to_uint p) = Z.pos p.
Proof. unfold Z.of_uint. rewrite DecimalPos.Unsigned.of_to. reflexivity. Qed.

(** Printing an integer and parsing it back gives the integer. *)
Lemma parseInt10_num_to_string (z : Z) :
  parseInt10 (num_to_string (Int z)) = Int z.
Proof.
  destruct z as [|p|p]; simpl.
  - reflexivity.
  - rewrite string_of_uint_nonnil by apply Unsigned.to_uint_nonnil.
    destruct (parseInt10_uint _ (Unsigned.to_uint_nonnil p)) as [-> _].
    rewrite Z_of_uint_to_uint. reflexivity.
  - rewrite string_of_uint_nonnil by apply Unsigned.to_uint_nonnil.
    destruct (parseInt10_uint _ (Unsigned.to_uint_nonnil p)) as [_ ->].
    rewrite Z_of_uint_to_uint. reflexivity.
Qed.

(** The printed form of an integer is a numeric string. *)
Lemma skip_digits_string_of_uint (u : Decimal.uint) :
  skip_digits (NilEmpty.string_of_uint u) = EmptyString.
Proof. induction u; simpl; auto. Qed.

Lemma is_unsigned_decimal_uint (u : Decimal.uint) :
  u <> Decimal.Nil -> is_unsigned_decimal (NilEmpty.string_of_uint u) = true.
Proof.
  intros Hu. unfold is_unsigned_decimal.
  rewrite skip_digits_string_of_uint.
  destruct u; try congruence; reflexivity.
Qed.

Lemma trim_end_no_ws (s : string) :
  string_forallb (fun c => negb (is_ws c)) s = true -> trim_end s = s.
Proof.
  induction s as [|c s IH]; simpl; [reflexivity|].
  intros H. apply andb_true_iff in H as [Hc Hs].
  apply negb_true_iff in Hc. rewrite Hc, (IH Hs). reflexivity.
Qed.

Lemma string_of_uint_no_ws (u : Decimal.uint) :
  string_forallb (fun c => negb (is_ws c)) (NilEmpty.string_of_uint u) = true.
Proof. induction u; simpl; auto. Qed.

Lemma trim_string_of_uint (u : Decimal.uint) :
  trim (NilEmpty.string_of_uint u) = NilEmpty.string_of_uint u.
Proof.
  unfold trim. rewrite skip_ws_string_of_uint.
  apply trim_end_no_ws, string_of_uint_no_ws.
Qed.

Lemma is_numeric_string_uint (u : Decimal.uint) :
  u <> Decimal.Nil ->
  is_numeric_string (NilEmpty.string_of_uint u) = true /\
  is_numeric_string (String "-" (NilEmpty.string_of_uint u)) = true.
Proof.
  intros Hu. pose proof (is_unsigned_decimal_uint u Hu) as Hd.
  pose proof (trim_string_of_uint u) as Ht.
  pose proof (string_of_uint_no_ws u) as Hw. split.
  - unfold is_numeric_string. rewrite Ht.
    assert (Hdl : is_decimal_literal (NilEmpty.string_of_uint u) = true)
      by (destruct u; try congruence; exact Hd).
    rewrite Hdl. apply orb_true_iff. left. apply orb_true_iff. right. reflexivity.
  - unfold is_numeric_string, trim.
    change (skip_ws (String "-" (NilEmpty.string_of_uint u)))
      with (String "-" (NilEmpty.string_of_uint u)).
    rewrite trim_end_no_ws by (simpl; exact Hw).
    simpl. rewrite Hd. reflexivity.
Qed.

(** The printed form of an integer is a numeric string. *)
Lemma is_numeric_string_num_to_string (z : Z) :
  is_numeric_string (num_to_string (Int z)) = true.
Proof.
  destruct z as [|p|p]; simpl.
  - reflexivity.
  - rewrite string_of_uint_nonnil by apply Unsigned.to_uint_nonnil.
    apply is_numeric_string_uint, Unsigned.to_uint_nonnil.
  - rewrite string_of_uint_nonnil by apply Unsigned.to_uint_nonnil.
    apply is_numeric_string_uint, Unsigned.to_uint_nonnil.
Qed.

(** ** Properties of objects *)

Lemma prop_get_set_eq (ps : Props) (k : string) (v : JsVal) :
  prop_get (prop_set ps k v) k = v.
Proof.
  induction ps as [|[k' v'] r IH]; simpl.
  - rewrite String.eqb_refl. reflexivity.
  - destruct (String.eqb k' k) eqn:E; simpl.
    + rewrite String.eqb_refl. reflexivity.
    + rewrite E. exact IH.
Qed.

Lemma prop_get_set_ne (ps : Props) (k k' : string) (v : JsVal) :
  k <> k' -> prop_get (prop_set ps k v) k' = prop_get ps k'.
Proof.
  intros Hne. induction ps as [|[k0 v0] r IH]; simpl.
  - apply String.eqb_neq in Hne. rewrite Hne. reflexivity.
  - destruct (String.eqb k0 k) eqn:E; simpl.
    + apply String.eqb_eq in E. subst k0.
      apply String.eqb_neq in Hne. rewrite Hne. reflexivity.
    + destruct (String.eqb k0 k'); [reflexivity | exact IH].
Qed.

Lemma assign_keys_get (f : string -> JsVal) (ks : list string) (t : Props)
    (k : string) :
  prop_get (fold_left (fun t k => prop_set t k (f k)) ks t) k =
  if existsb (String.eqb k) ks then f k else prop_get t k.
Proof.
  revert t. induction ks as [|k0 ks IH]; intros t; simpl; [reflexivity|].
  rewrite IH. destruct (existsb (String.eqb k) ks); simpl.
  - rewrite orb_true_r. reflexivity.
  - rewrite orb_false_r. destruct (String.eqb k k0) eqn:E.
    + apply String.eqb_eq in E. subst k0. apply prop_get_set_eq.
    + apply String.eqb_neq in E. apply prop_get_set_ne. congruence.
Qed.

Lemma existsb_eqb_In (k : string) (ks : list string) :
  existsb (String.eqb k) ks = true <-> In k ks.
Proof.
  rewrite existsb_exists. split.
  - intros (x & Hx & He). apply String.eqb_eq in He. subst x. exact Hx.
  - intros H. exists k. split; [exact H | apply String.eqb_refl].
Qed.

(** After [Object.assign] a key of the source reads as in the source. *)
Lemma Object_assign_get_in (target source : Props) (k : string) :
  In k (Object_keys source) ->
  prop_get (Object_assign target source) k = prop_get source k.
Proof.
  intros H. unfold Object_assign. rewrite assign_keys_get.
  apply existsb_eqb_In in H. rewrite H. reflexivity.
Qed.

(** Any other key reads as before. *)
Lemma Object_assign_get_notin (target source : Props) (k : string) :
  ~ In k (Object_keys source) ->
  prop_get (Object_assign target source) k = prop_get target k.
Proof.
  intros H. unfold Object_assign. rewrite assign_keys_get.
  destruct (existsb (String.eqb k) (Object_keys source)) eqn:E; [|reflexivity].
  apply existsb_eqb_In in E. contradiction.
Qed.

(** ** Validation *)

Lemma validate_entry_ok (h : Heap) (ps : Props) (k : string) :
  validate_entry h ps k = Return tt <-> accepted h (prop_get ps k).
Proof.
  unfold validate_entry, accepted. split.
  - destruct (toUpperCase_call h (prop_get ps k)) as [level|];
      [|discriminate].
    intros H. exists level. split; [reflexivity | exact H].
  - intros (level & -> & H). exact H.
Qed.

(** A string is accepted exactly when it spells a level name; so is any
    value that is not an object. *)
Lemma accepted_string (h : Heap) (s : string) :
  accepted h (VString s) <-> valid_level (VString s).
Proof.
  unfold accepted, valid_level. simpl. split.
  - intros (level & [= <-] & H). apply validateLogLevel_ok in H. eauto.
  - intros (s' & [= <-] & H). exists (toUpperCase s).
    split; [reflexivity | apply validateLogLevel_ok, H].
Qed.

Lemma valid_level_accepted (h : Heap) (v : JsVal) :
  valid_level v -> accepted h v.
Proof. intros (s & -> & H). apply accepted_string. exists s. auto. Qed.

Lemma accepted_truthy (h : Heap) (v : JsVal) : accepted h v -> truthy v = true.
Proof.
  intros (level & Hc & H). destruct v as [| | | |s|l]; try discriminate;
    [|reflexivity].
  destruct s; [|reflexivity]. injection Hc as <-. discriminate H.
Qed.

Lemma accepted_primitive (h : Heap) (v : JsVal) :
  primitive v -> accepted h v -> valid_level v.
Proof.
  intros Hp (level & Hc & H). destruct v as [| | | |s|l]; try discriminate.
  - apply (accepted_string h). exists level. auto.
  - elim (Hp l). reflexivity.
Qed.

Lemma forEach_ok {A : Type} (f : A -> Result unit) (xs : list A) :
  forEach f xs = Return tt <-> forall x, In x xs -> f x = Return tt.
Proof.
  induction xs as [|x r IH]; simpl.
  - split; [intros _ y [] | reflexivity].
  - destruct (f x) as [[]|e] eqn:E.
    + rewrite IH. split.
      * intros H y [<-|Hy]; [exact E | apply H, Hy].
      * intros H y Hy. apply H. right. exact Hy.
    + split; [discriminate|]. intros H.
      specialize (H x (or_introl eq_refl)). congruence.
Qed.

(** [forEach] raises what the first failing element raises. *)
Lemma forEach_throw {A : Type} (f : A -> Result unit) (xs : list A)
    (e : Exception) :
  forEach f xs = Throw e <->
  exists pre x post, xs = pre ++ x :: post /\
    (forall y, In y pre -> f y = Return tt) /\ f x = Throw e.
Proof.
  induction xs as [|x r IH]; simpl.
  - split; [discriminate|]. intros (pre & y & post & H & _).
    destruct pre; discriminate.
  - destruct (f x) as [[]|e0] eqn:E.
    + rewrite IH. split.
      * intros (pre & y & post & -> & Hpre & Hy).
        exists (x :: pre), y, post. split; [reflexivity|]. split; [|exact Hy].
        intros z [<-|Hz]; [exact E | apply Hpre, Hz].
      * intros (pre & y & post & Hxs & Hpre & Hy).
        destruct pre as [|p pre]; simpl in Hxs; injection Hxs as <- ->.
        -- congruence.
        -- exists pre, y, post. split; [reflexivity|]. split; [|exact Hy].
           intros z Hz. apply Hpre. right. exact Hz.
    + split.
      * intros [= ->]. exists [], x, r. split; [reflexivity|].
        split; [intros y []|exact E].
      * intros (pre & y & post & Hxs & Hpre & Hy).
        destruct pre as [|p pre]; simpl in Hxs; injection Hxs as <- ->.
        -- congruence.
        -- specialize (Hpre x (or_introl eq_refl)). congruence.
Qed.

(** The mappings that pass validation: objects (or primitives, through
    their wrapper) all of whose own values are accepted. *)
Lemma validateLogLevels_ok (h : Heap) (levels : JsVal) :
  validateLogLevels h levels = Return tt <->
  exists ps, own_props h levels = Some ps /\
    forall k, In k (Object_keys ps) -> accepted h (prop_get ps k).
Proof.
  unfold validateLogLevels. destruct (own_props h levels) as [ps|].
  - rewrite forEach_ok. split.
    + intros H. exists ps. split; [reflexivity|].
      intros k Hk. apply validate_entry_ok, H, Hk.
    + intros (ps' & [= <-] & H) k Hk. apply validate_entry_ok, H, Hk.
  - split; [discriminate|]. intros (ps & Hps & _). discriminate.
Qed.



Lemma valid_level_truthy (v : JsVal) : valid_level v -> truthy v = true.
Proof.
  intros (s & -> & H). destruct s; [|reflexivity].
  simpl in H. repeat (destruct H as [H|H]; [discriminate|]). destruct H.
Qed.

(** A valid level resolves to its rank, which is one of 0..4. *)
Lemma getLevelByName_valid (h : Heap) (v : JsVal) :
  valid_level v ->
  exists z, getLevelByName h v = Return (Int z) /\ 0 <= z <= 4 /\
    forall s, v = VString s -> Log_static (toUpperCase s) = Some (Int z).
Proof.
  intros (s & -> & H).
  destruct (validateLogLevel_static (toUpperCase s) H) as (z & Hz & Hr).
  exists z. split; [apply getLevelByName_name; assumption|].
  split; [exact Hr|]. intros s' [= <-]. exact Hz.
Qed.

(** ** The constructor, by cases *)

Lemma set_heap_id (w : World) : set_heap (heap w) w = w.
Proof. destruct w; reflexivity. Qed.

Lemma moduleName_ok_check (moduleName : JsVal) :
  negb (String.eqb (typeof moduleName) "string") && truthy moduleName
  = negb (moduleName_ok moduleName).
Proof.
  unfold moduleName_ok.
  destruct (String.eqb (typeof moduleName) "string"), (truthy moduleName);
    reflexivity.
Qed.

Lemma Log_bad_moduleName (moduleName component logLevels : JsVal) (w : World) :
  moduleName_ok moduleName = false ->
  Log moduleName component logLevels w =
  (Throw (InvalidArgument "module name is not a string"), w).
Proof.
  intros H. unfold Log. rewrite moduleName_ok_check, H. reflexivity.
Qed.

Lemma Log_no_component (moduleName component logLevels : JsVal) (w : World) :
  moduleName_ok moduleName = true -> truthy component = false ->
  Log moduleName component logLevels w =
  (Throw (InvalidArgument "component is required"), w).
Proof.
  intros Hm Hc. unfold Log. rewrite moduleName_ok_check, Hm, Hc. reflexivity.
Qed.

Lemma Log_object (moduleName component : JsVal) (l : loc) (w : World) :
  moduleName_ok moduleName = true -> truthy component = true ->
  Log moduleName component (VObject l) w =
  match validateLogLevels (heap w) (VObject l) with
  | Throw e => (Throw e, w)
  | Return _ =>
      (Return {| inst_moduleName := moduleName;
                 _logLevels := l;
                 inst_name := bind_toString (heap w) component |}, w)
  end.
Proof.
  intros Hm Hc. unfold Log. rewrite moduleName_ok_check, Hm, Hc. simpl.
  rewrite set_heap_id. destruct (validateLogLevels (heap w) (VObject l)); reflexivity.
Qed.

Lemma Log_null (moduleName component : JsVal) (w : World) :
  moduleName_ok moduleName = true -> truthy component = true ->
  Log moduleName component VNull w = (Throw TypeError, w).
Proof.
  intros Hm Hc. unfold Log. rewrite moduleName_ok_check, Hm, Hc. simpl.
  rewrite set_heap_id. reflexivity.
Qed.

Lemma typeof_object (v : JsVal) :
  String.eqb (typeof v) "object" = true -> v = VNull \/ exists l, v = VObject l.
Proof. destruct v; simpl; try discriminate; eauto. Qed.

(** A [levels] argument that is not of type object is replaced by a new,
    empty table, and construction succeeds. *)
Lemma Log_non_object (moduleName component logLevels : JsVal) (w : World) :
  moduleName_ok moduleName = true -> truthy component = true ->
  String.eqb (typeof logLevels) "object" = false ->
  let l := fresh (dom (heap w)) in
  let h := <[l := empty_object]> (heap w) in
  Log moduleName component logLevels w =
  (Return {| inst_moduleName := moduleName;
             _logLevels := l;
             inst_name := bind_toString h component |}, set_heap h w).
Proof.
  intros Hm Hc Ht. unfold Log. rewrite moduleName_ok_check, Hm, Hc, Ht. simpl.
  unfold validateLogLevels. simpl. rewrite lookup_total_insert_eq. reflexivity.
Qed.

(** Whatever the constructor is given, the instance it returns holds the
    module name it was given, and a table that passed validation. *)
Lemma Log_returns (moduleName component logLevels : JsVal) (w w' : World)
    (inst : LogInstance) :
  Log moduleName component logLevels w = (Return inst, w') ->
  moduleName_ok moduleName = true /\ truthy component = true /\
  inst_moduleName inst = moduleName /\
  inst_name inst = bind_toString (heap w') component /\
  validateLogLevels (heap w') (VObject (_logLevels inst)) = Return tt /\
  (logLevels = VObject (_logLevels inst) /\ w' = w \/
   String.eqb (typeof logLevels) "object" = false /\
   _logLevels inst = fresh (dom (heap w)) /\
   heap w' = <[_logLevels inst := empty_object]> (heap w)).
Proof.
  intros H.
  destruct (moduleName_ok moduleName) eqn:Hm;
    [|rewrite Log_bad_moduleName in H by assumption; discriminate].
  destruct (truthy component) eqn:Hc;
    [|rewrite Log_no_component in H by assumption; discriminate].
  destruct (String.eqb (typeof logLevels) "object") eqn:Ht.
  - apply typeof_object in Ht as [->|[l ->]].
    + rewrite Log_null in H by assumption. discriminate.
    + rewrite Log_object in H by assumption.
      destruct (validateLogLevels (heap w) (VObject l)) as [[]|] eqn:Hv;
        [|discriminate].
      injection H as <- <-. simpl. repeat split; auto.
  - rewrite Log_non_object in H by assumption. injection H as <- <-. simpl.
    repeat split; auto.
    unfold validateLogLevels. simpl. rewrite lookup_total_insert_eq. reflexivity.
Qed.

(** ** [createLog] shares the table and copies nothing *)



(** ** [setLevels] *)

Lemma setLevels_throw (this : LogInstance) (levels : JsVal) (w : World)
    (e : Exception) :
  validateLogLevels (heap w) levels = Throw e ->
  setLevels this levels w = (Throw e, w).
Proof. intros H. unfold setLevels. rewrite H. reflexivity. Qed.

Lemma setLevels_return (this : LogInstance) (levels : JsVal) (w : World)
    (src : Props) :
  validateLogLevels (heap w) levels = Return tt ->
  own_props (heap w) levels = Some src ->
  let l := _logLevels this in
  let table := heap w !!! l in
  setLevels this levels w =
  (Return this,
   set_heap (<[l := with_props table (Object_assign (props table) src)]> (heap w)) w).
Proof. intros Hv Hs. unfold setLevels. rewrite Hv, Hs. reflexivity. Qed.



(** ** Tables stay valid, and effective levels are ranks *)

Lemma prop_get_absent (ps : Props) (k : string) :
  ~ In k (Object_keys ps) -> prop_get ps k = VUndefined.
Proof.
  induction ps as [|[k' v] r IH]; simpl; [reflexivity|].
  intros H. destruct (String.eqb k' k) eqn:E.
  - apply String.eqb_eq in E. elim H. left. exact E.
  - apply IH. intros Hin. apply H. right. exact Hin.
Qed.

Lemma prop_set_keys (ps : Props) (k k' : string) (v : JsVal) :
  In k' (Object_keys (prop_set ps k v)) -> In k' (Object_keys ps) \/ k' = k.
Proof.
  induction ps as [|[k0 v0] r IH]; simpl.
  - intros [<-|[]]. right. reflexivity.
  - destruct (String.eqb k0 k) eqn:E; simpl.
    + apply String.eqb_eq in E. subst k0. intros [<-|H]; auto.
    + intros [<-|H]; [auto|]. destruct (IH H); auto.
Qed.

Lemma Object_assign_keys (target source : Props) (k : string) :
  In k (Object_keys (Object_assign target source)) ->
  In k (Object_keys target) \/ In k (Object_keys source).
Proof.
  unfold Object_assign. generalize (Object_keys source) as ks.
  intros ks. revert target. induction ks as [|k0 ks IH]; intros t; simpl.
  - auto.
  - intros H. apply IH in H as [H|H]; [|auto].
    apply prop_set_keys in H as [H| ->]; auto.
Qed.

Lemma prop_set_keys_old (ps : Props) (k k' : string) (v : JsVal) :
  In k' (Object_keys ps) -> In k' (Object_keys (prop_set ps k v)).
Proof.
  induction ps as [|[k0 v0] r IH]; simpl; [intros []|].
  destruct (String.eqb k0 k) eqn:E; simpl.
  - apply String.eqb_eq in E. subst k0. auto.
  - intros [H|H]; auto.
Qed.

Lemma prop_set_keys_new (ps : Props) (k : string) (v : JsVal) :
  In k (Object_keys (prop_set ps k v)).
Proof.
  induction ps as [|[k0 v0] r IH]; simpl; [auto|].
  destruct (String.eqb k0 k); simpl; auto.
Qed.

Lemma Object_assign_keys_source (target source : Props) (k : string) :
  In k (Object_keys source) -> In k (Object_keys (Object_assign target source)).
Proof.
  unfold Object_assign. generalize (prop_get source) as f.
  generalize (Object_keys source) as ks. intros ks f. revert target.
  induction ks as [|k0 ks IH]; intros t; simpl; [intros []|].
  intros [->|H]; [|apply IH, H].
  assert (Hkeep : forall ks' t', In k (Object_keys t') ->
            In k (Object_keys (fold_left (fun t k => prop_set t k (f k)) ks' t'))).
  { induction ks' as [|k1 ks' IH']; intros t' Ht'; simpl; [exact Ht'|].
    apply IH', prop_set_keys_old, Ht'. }
  apply Hkeep, prop_set_keys_new.
Qed.

(** On a value that is not an object, [toUpperCase] does not read the
    heap. *)
Lemma toUpperCase_call_primitive (h h' : Heap) (v : JsVal) :
  primitive v -> toUpperCase_call h v = toUpperCase_call h' v.
Proof. intros H. destruct v as [| | | | |l]; try reflexivity. elim (H l eq_refl). Qed.

Lemma validateLogLevels_primitive (h h' : Heap) (levels : JsVal) (src : Props) :
  own_props h levels = Some src -> own_props h' levels = Some src ->
  (forall k, primitive (prop_get src k)) ->
  validateLogLevels h' levels = validateLogLevels h levels.
Proof.
  intros Hs Hs' Hprim. unfold validateLogLevels. rewrite Hs, Hs'.
  induction (Object_keys src) as [|k ks IH]; simpl; [reflexivity|].
  unfold validate_entry at 1 3.
  rewrite (toUpperCase_call_primitive h' h _ (Hprim k)).
  destruct (toUpperCase_call h (prop_get src k)) as [level|]; [|reflexivity].
  destruct (validateLogLevel level); [exact IH | reflexivity].
Qed.

(** ** Property reads *)

Lemma prop_get_primitive (ps : Props) (k : string) :
  Forall (fun kv => primitive (snd kv)) ps -> primitive (prop_get ps k).
Proof.
  induction 1 as [|[k' v] r Hv _ IH]; simpl.
  - intros l. discriminate.
  - destruct (String.eqb k' k); [exact Hv | exact IH].
Qed.

Lemma property_read_own (ps : Props) (k : string) :
  In k (Object_keys ps) -> property_read ps k = Data (prop_get ps k).
Proof.
  intros H. unfold property_read. apply existsb_eqb_In in H. rewrite H.
  reflexivity.
Qed.

Lemma property_read_not_own (ps : Props) (k : string) :
  ~ In k (Object_keys ps) ->
  property_read ps k = if is_inherited k then Builtin k else Data VUndefined.
Proof.
  intros H. unfold property_read.
  destruct (existsb (String.eqb k) (Object_keys ps)) eqn:E; [|reflexivity].
  apply existsb_eqb_In in E. contradiction.
Qed.



(** A successful [setLevels] with a mapping of primitive values keeps a
    table of level names a table of level names. *)
Lemma setLevels_preserves_valid (this this' : LogInstance) (levels : JsVal)
    (w w' : World) (src : Props) :
  setLevels this levels w = (Return this', w') ->
  own_props (heap w) levels = Some src ->
  (forall k, primitive (prop_get src k)) ->
  names_only (props (heap w !!! _logLevels this)) ->
  names_only (props (heap w' !!! _logLevels this)).
Proof.
  unfold setLevels.
  destruct (validateLogLevels (heap w) levels) as [[]|] eqn:Hv; [|discriminate].
  intros [= _ <-] Hs Hprim Hall. simpl.
  apply validateLogLevels_ok in Hv as (src' & Hs' & Hsrc).
  rewrite Hs in Hs'. injection Hs' as <-. rewrite Hs. simpl.
  rewrite lookup_total_insert_eq. simpl. intros k Hk.
  destruct (in_dec string_dec k (Object_keys src)) as [Hin|Hout].
  - rewrite Object_assign_get_in by exact Hin.
    apply (accepted_primitive (heap w)); [apply Hprim | apply Hsrc, Hin].
  - rewrite Object_assign_get_notin by exact Hout.
    apply Object_assign_keys in Hk as [Hk|Hk]; [apply Hall, Hk | contradiction].
Qed.

(** On a table of level names, with a default that is a level name, the
    effective level of an instance is one of the ranks 0..4, unless its
    module name is the name of a member of [Object.prototype] and not a key
    of the table. *)
Lemma effective_level_defined (dflt : JsVal) (this : LogInstance) (h : Heap) :
  names_only (props (h !!! _logLevels this)) ->
  valid_level dflt ->
  In (ToString h (inst_moduleName this))
     (Object_keys (props (h !!! _logLevels this))) \/
  is_inherited (ToString h (inst_moduleName this)) = false ->
  exists z, 0 <= z <= 4 /\ logLevel_get dflt this h = Return (Int z).
Proof.
  intros Hall Hd Hkey. unfold logLevel_get.
  set (k := ToString h (inst_moduleName this)) in *.
  destruct (in_dec string_dec k (Object_keys (props (h !!! _logLevels this))))
    as [Hin|Hout].
  - rewrite (property_read_own _ _ Hin).
    specialize (Hall k Hin). rewrite (valid_level_truthy _ Hall).
    destruct (getLevelByName_valid h _ Hall) as (z & Hz & Hr & _). eauto.
  - destruct Hkey as [Hin|Hni]; [contradiction|].
    rewrite (property_read_not_own _ _ Hout), Hni. simpl.
    destruct (getLevelByName_valid h _ Hd) as (z & Hz & Hr & _). eauto.
Qed.

(** The ranks that have a level descriptor are exactly 0..4. *)
Lemma levels_at_Some (r : JsNum) (spec : LevelSpec) :
  levels_at r = Some spec -> exists z, r = Int z /\ 0 <= z <= 4.
Proof.
  destruct r as [| | |z]; simpl; try discriminate.
  destruct (0 <=? z) eqn:E; [|discriminate]. apply Z.leb_le in E.
  intros H. exists z. split; [reflexivity|]. split; [exact E|].
  assert (Hlt : (Z.to_nat z < length _levels)%nat)
    by (apply nth_error_Some; congruence).
  simpl in Hlt. lia.
Qed.

Lemma levels_at_None (r : JsNum) :
  (forall z, r = Int z -> z < 0 \/ 4 < z) -> levels_at r = None.
Proof.
  intros H. destruct r as [| | |z]; simpl; try reflexivity.
  destruct (H z eq_refl) as [Hz|Hz].
  - apply Z.leb_gt in Hz. rewrite Hz. reflexivity.
  - destruct (0 <=? z); [|reflexivity].
    apply nth_error_None. simpl. lia.
Qed.

Lemma num_le_gt (a : JsNum) (z : Z) :
  a <> NaN -> num_le a (Int z) = negb (num_gt a (Int z)).
Proof.
  destruct a as [| | |x]; simpl; try congruence; try reflexivity.
  intros _. rewrite Z.leb_antisym. reflexivity.
Qed.

(** ** [log] at a rank that has a descriptor *)

Lemma log_at_descriptor (dflt : JsVal) (this : LogInstance) (r : JsNum)
    (spec : LevelSpec) (current : JsNum) (message : Message) (w : World) :
  levels_at r = Some spec ->
  logLevel_get dflt this (heap w) = Return current ->
  log dflt this r message w =
  if num_le current r then
    (Return this,
     emit (logFn spec,
           (map VString (split_on "T" (now_iso w)) ++
            [VString "|"; VString (name spec); VString "in";
             VString (String.append (name_get this (heap w)) ":")])
           ++ concat_arg message) w)
  else (Return this, w).
Proof. intros Hs Hl. unfold log. rewrite Hs, Hl. reflexivity. Qed.

(** What validation can raise. *)
Lemma validate_entry_throw (h : Heap) (ps : Props) (k : string) (e : Exception) :
  validate_entry h ps k = Throw e ->
  (e = TypeError /\ toUpperCase_call h (prop_get ps k) = None) \/
  (e = InvalidArgument INVALID_LOG_LEVEL_MESSAGE /\
   exists level, toUpperCase_call h (prop_get ps k) = Some level /\
                 ~ In level LOG_LEVEL_NAMES).
Proof.
  unfold validate_entry.
  destruct (toUpperCase_call h (prop_get ps k)) as [level|] eqn:E.
  - intros H. apply validateLogLevel_fail in H as [-> H]. right. eauto.
  - intros [= <-]. left. split; reflexivity.
Qed.

Lemma validateLogLevels_throw (h : Heap) (levels : JsVal) (e : Exception) :
  validateLogLevels h levels = Throw e ->
  e = TypeError \/
  e = InvalidArgument INVALID_LOG_LEVEL_MESSAGE /\
  exists ps k level, own_props h levels = Some ps /\ In k (Object_keys ps) /\
    toUpperCase_call h (prop_get ps k) = Some level /\
    ~ In level LOG_LEVEL_NAMES.
Proof.
  unfold validateLogLevels. destruct (own_props h levels) as [ps|].
  - intros H. apply forEach_throw in H as (pre & k & post & Hk & _ & H).
    apply validate_entry_throw in H as [[-> _]|[-> (s & Hs & Hn)]]; [left; reflexivity|].
    right. split; [reflexivity|]. exists ps, k, s. repeat split; auto.
    rewrite Hk. apply in_elt.
  - intros [= <-]. left. reflexivity.
Qed.

(** ** Allocation *)

Lemma fresh_unallocated (h : Heap) : h !! fresh (dom h) = None.
Proof. apply not_elem_of_dom, is_fresh. Qed.

(** Allocating the object literal [{}] changes no object's methods: a
    location read before it is allocated reads as the empty object. *)
Lemma alloc_empty_lookup (h : Heap) (l : loc) :
  <[fresh (dom h) := empty_object]> h !!! l = h !!! l.
Proof.
  destruct (decide (fresh (dom h) = l)) as [<-|Hne].
  - rewrite lookup_total_insert_eq, lookup_total_alt, fresh_unallocated.
    reflexivity.
  - apply lookup_total_insert_ne. exact Hne.
Qed.

Lemma bind_toString_alloc (h : Heap) (component : JsVal) :
  bind_toString (<[fresh (dom h) := empty_object]> h) component
  = bind_toString h component.
Proof.
  destruct component as [| |[]| | |l]; try reflexivity.
  simpl. rewrite alloc_empty_lookup. reflexivity.
Qed.

(** For an argument that is not of type object ([undefined], a boolean, a
    number, a string), the table defaults to a new empty object,
    construction succeeds, and the effective level of the instance is what
    the default level resolves to, for a module name that is not the name
    of a member of [Object.prototype]. *)
Lemma Log_default_levels (dflt moduleName component logLevels : JsVal)
    (w : World) :
  moduleName_ok moduleName = true -> truthy component = true ->
  String.eqb (typeof logLevels) "object" = false ->
  (forall h, is_inherited (ToString h moduleName) = false) ->
  exists inst w',
    Log moduleName component logLevels w = (Return inst, w') /\
    heap w !! _logLevels inst = None /\
    heap w' = <[_logLevels inst := empty_object]> (heap w) /\
    logLevel_get dflt inst (heap w') = getLevelByName (heap w') dflt.
Proof.
  intros Hm Hc Ht Hni. do 2 eexists. split; [apply Log_non_object; assumption|].
  simpl. split; [apply fresh_unallocated|]. split; [reflexivity|].
  unfold logLevel_get. simpl. rewrite lookup_total_insert_eq.
  rewrite property_read_not_own by (simpl; tauto). rewrite Hni. reflexivity.
Qed.

Lemma clone_if_supported_world (e m : JsVal) (r : Result JsVal)
    (w w1 : World) :
  clone_if_supported e m w = (r, w1) ->
  console w1 = console w /\ now_iso w1 = now_iso w.
Proof.
  unfold clone_if_supported.
  destruct (clone_property (heap w) e) as [clone|v].
  - destruct e; intros [= _ <-]; split; reflexivity.
  - destruct (truthy v); intros [= _ <-]; split; reflexivity.
Qed.

(** [throwFn] is the clone step followed by one call of [log]. *)
Lemma throwFn_unfold (dflt : JsVal) (this : LogInstance) (e m : JsVal)
    (w : World) :
  e <> VUndefined -> e <> VNull ->
  throwFn dflt this e m w =
  match clone_if_supported e m w with
  | (Throw x, w1) => (Throw x, w1)
  | (Return e', w1) =>
      match log dflt this Log_ERROR (MsgValue e') w1 with
      | (Throw x, w2) => (Throw x, w2)
      | (Return _, w2) => (Throw (Thrown e'), w2)
      end
  end.
Proof.
  intros Hu Hn. unfold throwFn. destruct e; try congruence; reflexivity.
Qed.

Lemma sample_named_constructed :
  Log (VString "media") (VObject 4%positive) (VObject 1%positive) sample_world
  = (Return sample_named, sample_world).
Proof. vm_compute. reflexivity. Defined.

(* ===================================================================== *)
(** * 4. Properties of the logger                                         *)
(* ===================================================================== *)



(** C2, as the code has it.  For a rank [r] that has a level descriptor,
    and an instance whose effective level resolves to a number other than
    [NaN]: [log] leaves the world as it is when the
    effective level is greater than [r]; otherwise it makes exactly one call,
    to the sink of [r], with the ISO date part, the ISO time part, ["|"], the
    level name, ["in"], the component name followed by a colon, and then the
    message payload.  In both cases it returns the instance. *)
Theorem log_gating (dflt : JsVal) (this : LogInstance) (r : JsNum)
    (spec : LevelSpec) (current : JsNum) (message : Message) (w : World)
    (date time : string) :
  levels_at r = Some spec ->
  logLevel_get dflt this (heap w) = Return current ->
  current <> NaN ->
  split_on "T" (now_iso w) = [date; time] ->
  (num_gt current r = true ->
   log dflt this r message w = (Return this, w)) /\
  (num_gt current r = false ->
   log dflt this r message w =
   (Return this,
    {| heap := heap w;
       console := console w ++
         [(logFn spec,
           [VString date; VString time; VString "|"; VString (name spec);
            VString "in"; VString (String.append (name_get this (heap w)) ":")]
           ++ concat_arg message)];
       now_iso := now_iso w |})).
Proof.
  intros Hspec Hlvl Hnan Hiso.
  destruct (levels_at_Some r spec Hspec) as (z & -> & _).
  unfold log. rewrite Hspec, Hlvl, Hiso, (num_le_gt current z Hnan).
  split; intros ->; reflexivity.
Qed.

Lemma log_gating_witness :
  log sample_default sample_root Log_DEBUG (MsgArray [VString "x"]) sample_world
  = (Return sample_root, sample_world) /\
  log sample_default sample_root Log_WARN (MsgArray [VString "x"]) sample_world
  = (Return sample_root,
     {| heap := sample_heap;
        console :=
          [(console_warn,
            [VString "2020-01-02"; VString "03:04:05.678Z"; VString "|";
             VString "WARN"; VString "in"; VString "room:"; VString "x"])];
        now_iso := now_iso sample_world |}).
Proof.
  assert (Hn : Int 1 <> NaN) by discriminate.
  split.
  - apply (log_gating sample_default sample_root Log_DEBUG
             {| name := "DEBUG"; logFn := console_log |} (Int 1)
             (MsgArray [VString "x"]) sample_world
             "2020-01-02" "03:04:05.678Z" eq_refl eq_refl Hn eq_refl).
    reflexivity.
  - apply (log_gating sample_default sample_root Log_WARN
             {| name := "WARN"; logFn := console_warn |} (Int 1)
             (MsgArray [VString "x"]) sample_world
             "2020-01-02" "03:04:05.678Z" eq_refl eq_refl Hn eq_refl).
    reflexivity.
Defined.

(** The claim as stated fails when the effective level is not a number.
    For a module named ["constructor"] the table read finds the member
    inherited from [Object.prototype], resolving it raises a [TypeError],
    and [log] raises it instead of returning the instance, whatever the
    default.  With the default [null] the effective level of a module that
    has no entry is [NaN]: it is not greater than the rank, and yet nothing
    is sent. *)
Lemma log_unresolved_counterexample :
  Log (VString "constructor") (VString "room") (VObject 1%positive) sample_world
  = (Return sample_inherited, sample_world) /\
  levels_at Log_WARN = Some {| name := "WARN"; logFn := console_warn |} /\
  (forall dflt message,
      log dflt sample_inherited Log_WARN message sample_world
      = (Throw TypeError, sample_world)) /\
  logLevel_get VNull sample_child sample_heap = Return NaN /\
  num_gt NaN Log_WARN = false /\
  (forall message,
      log VNull sample_child Log_WARN message sample_world
      = (Return sample_child, sample_world)).
Proof.
  split; [vm_compute; reflexivity|]. split; [reflexivity|].
  split; [intros dflt message; reflexivity|].
  split; [vm_compute; reflexivity|]. split; [reflexivity|].
  intros message. reflexivity.
Qed.




(** C4.  [getLevelByName] maps every spelling, in any letter case, of a
    level name to the fixed rank of the level (DEBUG 0, INFO 1, WARN 2,
    ERROR 3, OFF 4); it returns [parseInt(n, 10)] for every input [n] that
    converts to a number, with no check against the ranks 0..4, so that a
    (safe) integer, or the decimal string of one, comes back as that integer
    whether or not it is a rank; and it raises [InvalidArgument] for every
    string that neither converts to a number nor spells a level name. *)
Theorem getLevelByName_spec (h : Heap) :
  (forall s,
      (toUpperCase s = "DEBUG"%string -> getLevelByName h (VString s) = Return (Int 0)) /\
      (toUpperCase s = "INFO"%string -> getLevelByName h (VString s) = Return (Int 1)) /\
      (toUpperCase s = "WARN"%string -> getLevelByName h (VString s) = Return (Int 2)) /\
      (toUpperCase s = "ERROR"%string -> getLevelByName h (VString s) = Return (Int 3)) /\
      (toUpperCase s = "OFF"%string -> getLevelByName h (VString s) = Return (Int 4))) /\
  (forall n, isNaN h n = false -> getLevelByName h n = Return (parseInt h n)) /\
  (forall z,
      safe_integer z ->
      getLevelByName h (VNumber (Int z)) = Return (Int z) /\
      getLevelByName h (VString (num_to_string (Int z))) = Return (Int z)) /\
  (forall s,
      is_numeric_string s = false ->
      ~ In (toUpperCase s) LOG_LEVEL_NAMES ->
      getLevelByName h (VString s)
      = Throw (InvalidArgument INVALID_LOG_LEVEL_MESSAGE)).
Proof.
  split; [|split; [|split]].
  - intros s. repeat split; intros Hs;
      apply getLevelByName_name; rewrite Hs; simpl; auto 10.
  - intros n Hn. unfold getLevelByName. rewrite Hn. reflexivity.
  - intros z _. split.
    + unfold getLevelByName, parseInt. cbn [isNaN negb ToString].
      rewrite parseInt10_num_to_string. reflexivity.
    + rewrite getLevelByName_string, is_numeric_string_num_to_string.
      rewrite parseInt10_num_to_string. reflexivity.
  - intros s Hnum Hname. rewrite getLevelByName_string, Hnum.
    destruct (validateLogLevel (toUpperCase s)) as [[]|e] eqn:E.
    + apply validateLogLevel_ok in E. contradiction.
    + apply validateLogLevel_fail in E as [-> _]. reflexivity.
Qed.

Lemma getLevelByName_spec_witness :
  getLevelByName sample_heap (VString "wArN") = Return (Int 2) /\
  getLevelByName sample_heap (VString " 99 ") = Return (Int 99) /\
  getLevelByName sample_heap (VNumber (Int 99)) = Return (Int 99) /\
  getLevelByName sample_heap (VString "verbose")
  = Throw (InvalidArgument "Log level must be one of: [DEBUG,INFO,WARN,ERROR,OFF]").
Proof.
  destruct (getLevelByName_spec sample_heap) as (Hname & Hnum & Hint & Hbad).
  split; [|split; [|split]].
  - apply (Hname "wArN"%string). reflexivity.
  - apply (Hnum (VString " 99 ")). reflexivity.
  - apply (Hint 99). unfold safe_integer, MAX_SAFE_INTEGER. lia.
  - apply (Hbad "verbose"%string); [reflexivity|].
    simpl. intros [H|[H|[H|[H|[H|[]]]]]]; discriminate H.
Defined.

(** C5.  For a numeric rank with no level descriptor (any number other than
    the integers 0..4: 99, a negative rank, [NaN], an infinity), whatever
    the instance and its configured level, [log] raises the [InvalidArgument]
    error ["Invalid log level"] and leaves the world, and so every sink,
    untouched. *)
Theorem log_invalid_rank (dflt : JsVal) (this : LogInstance) (r : JsNum)
    (message : Message) (w : World) :
  (forall z, r = Int z -> z < 0 \/ 4 < z) ->
  levels_at r = None /\
  log dflt this r message w = (Throw (InvalidArgument "Invalid log level"), w).
Proof.
  intros H. apply levels_at_None in H. split; [exact H|].
  unfold log. rewrite H. reflexivity.
Qed.

Lemma log_invalid_rank_witness :
  log sample_default sample_root (Int 99) (MsgArray [VString "x"]) sample_world
  = (Throw (InvalidArgument "Invalid log level"), sample_world).
Proof.
  apply (log_invalid_rank sample_default sample_root (Int 99)).
  intros z [= <-]. right. lia.
Defined.

(** C6, as the code has it.  The module-name check runs first: a module
    name that is truthy and not a string always fails with [InvalidArgument]
    ["module name is not a string"], whatever the component.  A falsy
    component always fails with [InvalidArgument], and the message is
    ["component is required"] when the module name is a string or falsy.
    With a truthy component and a string or falsy module name, construction
    raises neither of these two errors. *)
Theorem constructor_argument_checks (moduleName component logLevels : JsVal)
    (w : World) :
  (String.eqb (typeof moduleName) "string" = false ->
   truthy moduleName = true ->
   Log moduleName component logLevels w
   = (Throw (InvalidArgument "module name is not a string"), w)) /\
  (truthy component = false ->
   exists msg,
     Log moduleName component logLevels w = (Throw (InvalidArgument msg), w) /\
     (String.eqb (typeof moduleName) "string" = true \/ truthy moduleName = false ->
      msg = "component is required"%string)) /\
  (truthy component = true ->
   String.eqb (typeof moduleName) "string" = true \/ truthy moduleName = false ->
   fst (Log moduleName component logLevels w)
   <> Throw (InvalidArgument "module name is not a string") /\
   fst (Log moduleName component logLevels w)
   <> Throw (InvalidArgument "component is required")).
Proof.
  assert (Hok : String.eqb (typeof moduleName) "string" = true \/
                truthy moduleName = false -> moduleName_ok moduleName = true).
  { unfold moduleName_ok. intros [->| ->]; [reflexivity|].
    apply orb_true_r. }
  split; [|split].
  - intros Ht Hm. apply Log_bad_moduleName. unfold moduleName_ok.
    rewrite Ht, Hm. reflexivity.
  - intros Hc. destruct (moduleName_ok moduleName) eqn:Hm.
    + exists "component is required"%string. split; [|reflexivity].
      apply Log_no_component; assumption.
    + exists "module name is not a string"%string. split.
      * apply Log_bad_moduleName. exact Hm.
      * intros H. apply Hok in H. congruence.
  - intros Hc Hm. apply Hok in Hm.
    destruct (String.eqb (typeof logLevels) "object") eqn:Ht.
    + apply typeof_object in Ht as [->|[l ->]].
      * rewrite Log_null by assumption. split; discriminate.
      * rewrite Log_object by assumption.
        destruct (validateLogLevels (heap w) (VObject l)) as [[]|e] eqn:Hv;
          [split; discriminate|].
        apply validateLogLevels_throw in Hv as [->|[-> _]];
          split; simpl; discriminate.
    + rewrite (Log_non_object _ _ _ _ Hm Hc Ht). split; discriminate.
Qed.

Lemma constructor_argument_checks_witness :
  Log (VNumber (Int 5)) (VString "room") VUndefined sample_world
  = (Throw (InvalidArgument "module name is not a string"), sample_world) /\
  Log (VString "media") VUndefined VUndefined sample_world
  = (Throw (InvalidArgument "component is required"), sample_world) /\
  fst (Log VUndefined (VString "room") VUndefined sample_world)
  <> Throw (InvalidArgument "component is required").
Proof.
  split; [|split].
  - apply (constructor_argument_checks (VNumber (Int 5)) (VString "room")
             VUndefined sample_world); reflexivity.
  - destruct (constructor_argument_checks (VString "media") VUndefined
                VUndefined sample_world) as (_ & H & _).
    destruct (H eq_refl) as (msg & Hlog & Hmsg).
    rewrite Hlog, Hmsg; [reflexivity | left; reflexivity].
  - destruct (constructor_argument_checks VUndefined (VString "room")
                VUndefined sample_world) as (_ & _ & H).
    apply H; [reflexivity | right; reflexivity].
Defined.

(** The claim as stated fails when both arguments are wrong: the component
    is falsy, and the error raised is the one about the module name. *)
Lemma component_message_counterexample :
  truthy VUndefined = false /\
  Log (VNumber (Int 5)) VUndefined VUndefined sample_world
  = (Throw (InvalidArgument "module name is not a string"), sample_world) /\
  fst (Log (VNumber (Int 5)) VUndefined VUndefined sample_world)
  <> Throw (InvalidArgument "component is required").
Proof.
  split; [reflexivity|]. split; [reflexivity|]. vm_compute. discriminate.
Qed.

(** C7, as the code has it.  [throwFn] never returns normally.  For an
    error value other than [undefined] and [null] on which the clone step
    succeeds, and an instance whose effective level is a number, it raises
    the error obtained from the clone step; on the way it calls [log] once at
    rank ERROR, which sends exactly one message to the ERROR sink when the
    effective level is at most ERROR and nothing when it is higher (OFF).
    The clone step replaces an error that has a [clone] method by a new
    object, the clone made with the custom message, and leaves an error
    whose [clone] is absent or falsy, and the world, as they are. *)
Theorem throwFn_spec (dflt : JsVal) (this : LogInstance) (e m : JsVal)
    (w : World) :
  (forall x w', throwFn dflt this e m w <> (Return x, w')) /\
  (e <> VUndefined -> e <> VNull ->
   forall e' w1 current date time,
     clone_if_supported e m w = (Return e', w1) ->
     logLevel_get dflt this (heap w1) = Return current ->
     current <> NaN ->
     split_on "T" (now_iso w) = [date; time] ->
     (num_gt current Log_ERROR = false ->
      throwFn dflt this e m w =
      (Throw (Thrown e'),
       emit (console_error,
             [VString date; VString time; VString "|"; VString "ERROR";
              VString "in";
              VString (String.append (name_get this (heap w1)) ":"); e']) w1)) /\
     (num_gt current Log_ERROR = true ->
      throwFn dflt this e m w = (Throw (Thrown e'), w1))) /\
  (forall l clone,
      e = VObject l -> cloneFn (heap w !!! l) = Some clone ->
      exists l',
        heap w !! l' = None /\
        clone_if_supported e m w =
        (Return (VObject l'),
         set_heap (<[l' := clone (props (heap w !!! l)) m]> (heap w)) w)) /\
  ((forall l, e = VObject l ->
      cloneFn (heap w !!! l) = None /\
      truthy (prop_get (props (heap w !!! l)) "clone") = false) ->
   clone_if_supported e m w = (Return e, w)).
Proof.
  split; [|split; [|split]].
  - intros x w'. unfold throwFn.
    destruct e; try discriminate;
      destruct (clone_if_supported _ m w) as [[e1|x1] w1]; try discriminate;
      destruct (log dflt this Log_ERROR (MsgValue e1) w1) as [[?|?] ?];
      discriminate.
  - intros Hu Hn e' w1 current date time Hc Hlvl Hnan Hiso.
    rewrite throwFn_unfold by assumption. rewrite Hc.
    rewrite (log_at_descriptor dflt this Log_ERROR
               {| name := "ERROR"; logFn := console_error |} current
               (MsgValue e') w1 eq_refl Hlvl).
    destruct (clone_if_supported_world e m _ w w1 Hc) as [_ Hnow].
    rewrite Hnow, Hiso. unfold Log_ERROR. rewrite (num_le_gt current 3 Hnan).
    split; intros ->; reflexivity.
  - intros l clone -> Hclone. exists (fresh (dom (heap w))).
    split; [apply fresh_unallocated|].
    unfold clone_if_supported, clone_property. rewrite Hclone. reflexivity.
  - intros H. unfold clone_if_supported, clone_property.
    destruct e as [| | | | |l]; try reflexivity.
    destruct (H l eq_refl) as [-> ->]. reflexivity.
Qed.

Lemma throwFn_spec_witness :
  throwFn sample_default sample_root (VObject 6%positive) (VString "custom")
    sample_world
  = (Throw (Thrown (VObject 6%positive)),
     emit (console_error,
           [VString "2020-01-02"; VString "03:04:05.678Z"; VString "|";
            VString "ERROR"; VString "in"; VString "room:";
            VObject 6%positive]) sample_world) /\
  exists l',
    clone_if_supported (VObject 5%positive) (VString "custom") sample_world
    = (Return (VObject l'),
       set_heap (<[l' := {| props := [("message"%string, VString "custom")];
                            toStringFn := sample_error_toString;
                            cloneFn := None;
                            toUpperCaseFn := None |}]> sample_heap) sample_world).
Proof.
  destruct (throwFn_spec sample_default sample_root (VObject 6%positive)
              (VString "custom") sample_world) as (_ & Hlog & _ & Hkeep).
  destruct (throwFn_spec sample_default sample_root (VObject 5%positive)
              (VString "custom") sample_world) as (_ & _ & Hclone & _).
  split.
  - assert (Hn : Int 1 <> NaN) by discriminate.
    assert (H6u : VObject 6%positive <> VUndefined) by discriminate.
    assert (H6n : VObject 6%positive <> VNull) by discriminate.
    assert (Hc : clone_if_supported (VObject 6%positive) (VString "custom")
                   sample_world = (Return (VObject 6%positive), sample_world)).
    { apply Hkeep. intros l [= <-]. split; reflexivity. }
    destruct (Hlog H6u H6n _ _ (Int 1) "2020-01-02"%string
                "03:04:05.678Z"%string Hc eq_refl Hn eq_refl) as [H _].
    apply H. reflexivity.
  - destruct (Hclone 5%positive _ eq_refl eq_refl) as (l' & _ & H).
    exists l'. exact H.
Defined.

(** The claim as stated fails for an instance whose level is OFF: the error
    is raised, and no message reaches any sink. *)
Lemma throw_when_off_counterexample :
  logLevel_get sample_default sample_silent sample_heap = Return Log_OFF /\
  fst (throwFn sample_default sample_silent (VObject 6%positive)
         (VString "custom") sample_world)
  = Throw (Thrown (VObject 6%positive)) /\
  console (snd (throwFn sample_default sample_silent (VObject 6%positive)
                  (VString "custom") sample_world)) = [].
Proof. repeat split; vm_compute; reflexivity. Qed.

(** C8, as the code has it.  [name] is a getter: every read calls the
    [toString] function that the component had when the instance was
    constructed, on the component as it is at the time of the read.  For a
    primitive component the result is the construction-time string.  For an
    object it is the construction-time function applied to the current
    properties: giving the component another [toString] later changes
    nothing, and the name is the construction-time string for as long as the
    properties are those of construction time. *)
Theorem name_is_bound_toString (moduleName component logLevels : JsVal)
    (w w' : World) (inst : LogInstance) :
  Log moduleName component logLevels w = (Return inst, w') ->
  (forall h : Heap,
      name_get inst h =
      match component with
      | VObject l => toStringFn (heap w !!! l) (props (h !!! l))
      | _ => ToString (heap w) component
      end) /\
  (forall (h : Heap) (l : loc),
      component = VObject l ->
      props (h !!! l) = props (heap w !!! l) ->
      name_get inst h = ToString (heap w) component).
Proof.
  intros H. apply Log_returns in H
    as (_ & _ & _ & Hname & _ & [[_ ->]|(_ & Hl & Hh)]).
  - assert (Hall : forall h : Heap,
               name_get inst h =
               match component with
               | VObject l => toStringFn (heap w !!! l) (props (h !!! l))
               | _ => ToString (heap w) component
               end).
    { intros h. unfold name_get. rewrite Hname.
      destruct component as [| |[]| | |l]; reflexivity. }
    split; [exact Hall|]. intros h l -> Hp. rewrite Hall. simpl.
    rewrite Hp. reflexivity.
  - rewrite Hh, Hl, bind_toString_alloc in Hname.
    assert (Hall : forall h : Heap,
               name_get inst h =
               match component with
               | VObject l => toStringFn (heap w !!! l) (props (h !!! l))
               | _ => ToString (heap w) component
               end).
    { intros h. unfold name_get. rewrite Hname.
      destruct component as [| |[]| | |l]; reflexivity. }
    split; [exact Hall|]. intros h l -> Hp. rewrite Hall. simpl.
    rewrite Hp. reflexivity.
Qed.

Lemma name_is_bound_toString_witness :
  name_get sample_named sample_heap = "A"%string /\
  name_get sample_named sample_heap_renamed = "B"%string /\
  name_get sample_named
    (<[4%positive := {| props := [("id"%string, VString "A")];
                        toStringFn := fun _ => "renamed"%string;
                        cloneFn := None;
                        toUpperCaseFn := None |}]> sample_heap) = "A"%string.
Proof.
  destruct (name_is_bound_toString _ _ _ _ _ _ sample_named_constructed)
    as [Hall Hsame].
  split; [|split].
  - rewrite Hall. reflexivity.
  - rewrite Hall. reflexivity.
  - rewrite (Hsame _ 4%positive); reflexivity.
Defined.

(** The claim as stated fails for a component whose [toString] reads its
    state: constructed while the component prints ["A"], the instance reads
    its name as ["B"] once the component's [id] is ["B"], and prints ["B:"]
    in the prefix of its messages. *)
Lemma name_not_captured_counterexample :
  Log (VString "media") (VObject 4%positive) (VObject 1%positive) sample_world
  = (Return sample_named, sample_world) /\
  ToString sample_heap (VObject 4%positive) = "A"%string /\
  name_get sample_named sample_heap_renamed = "B"%string /\
  console (snd (warn sample_default sample_named [VString "x"]
                  (set_heap sample_heap_renamed sample_world)))
  = [(console_warn,
      [VString "2020-01-02"; VString "03:04:05.678Z"; VString "|";
       VString "WARN"; VString "in"; VString "B:"; VString "x"])].
Proof. repeat split; vm_compute; reflexivity. Qed.

(** C9, on the failing input.  [typeof null] is ["object"], so a [null]
    table is not replaced by [{}]: [Object.keys(null)] raises a [TypeError]
    and construction fails. *)
Theorem Log_null_levels :
  Log (VString "media") (VString "room") VNull sample_world
  = (Throw TypeError, sample_world).
Proof. vm_compute. reflexivity. Qed.

(** C10, as the code has it.  Validation runs over the keys in order and
    stops at the first entry that fails.  When that entry holds a value
    without a [toUpperCase] method, that is a value that is not a string
    and, if an object, carries no such method (for example the number 2),
    all entries before it being accepted, the call of [toUpperCase] raises a
    [TypeError], from [setLevels] and from the constructor alike, and not
    the [InvalidArgument] error that lists the level names; and whenever
    validation does raise [InvalidArgument], an entry whose value has a
    [toUpperCase] method, a string or an object carrying one, that returns an
    unrecognised name is the cause. *)
Theorem validation_type_error (this : LogInstance)
    (moduleName component : JsVal) (l : loc) (w : World) :
  let src := props (heap w !!! l) in
  (forall pre k post,
      Object_keys src = pre ++ k :: post ->
      (forall k', In k' pre -> accepted (heap w) (prop_get src k')) ->
      (forall s, prop_get src k <> VString s) ->
      (forall l', prop_get src k = VObject l' ->
                  toUpperCaseFn (heap w !!! l') = None) ->
      validateLogLevels (heap w) (VObject l) = Throw TypeError /\
      setLevels this (VObject l) w = (Throw TypeError, w) /\
      (moduleName_ok moduleName = true -> truthy component = true ->
       Log moduleName component (VObject l) w = (Throw TypeError, w))) /\
  (forall msg,
      validateLogLevels (heap w) (VObject l) = Throw (InvalidArgument msg) ->
      msg = INVALID_LOG_LEVEL_MESSAGE /\
      exists k level,
        In k (Object_keys src) /\
        toUpperCase_call (heap w) (prop_get src k) = Some level /\
        ~ In level LOG_LEVEL_NAMES).
Proof.
  intros src. split.
  - intros pre k post Hkeys Hpre Hk Hobj.
    assert (Hnone : toUpperCase_call (heap w) (prop_get src k) = None).
    { destruct (prop_get src k) as [| | | |s|l'] eqn:E; try reflexivity.
      - elim (Hk s). reflexivity.
      - simpl. rewrite (Hobj l' eq_refl). reflexivity. }
    assert (Hv : validateLogLevels (heap w) (VObject l) = Throw TypeError).
    { unfold validateLogLevels. simpl. fold src. apply forEach_throw.
      exists pre, k, post. split; [exact Hkeys|]. split.
      - intros y Hy. apply validate_entry_ok, Hpre, Hy.
      - unfold validate_entry. rewrite Hnone. reflexivity. }
    split; [exact Hv|]. split.
    + apply setLevels_throw, Hv.
    + intros Hm Hc. rewrite Log_object by assumption. rewrite Hv. reflexivity.
  - intros msg Hv. apply validateLogLevels_throw in Hv as [Hv|[Hmsg H]];
      [discriminate|].
    injection Hmsg as ->. split; [reflexivity|].
    destruct H as (ps & k & level & [= <-] & Hk & Hget & Hn). eauto.
Qed.

Lemma validation_type_error_witness :
  validateLogLevels sample_heap (VObject 3%positive) = Throw TypeError /\
  setLevels sample_root (VObject 3%positive) sample_world
  = (Throw TypeError, sample_world) /\
  Log (VString "media") (VString "room") (VObject 3%positive) sample_world
  = (Throw TypeError, sample_world).
Proof.
  destruct (validation_type_error sample_root (VString "media") (VString "room")
              3%positive sample_world) as [H _].
  destruct (H ["media"%string] "signaling"%string [] eq_refl)
    as (H1 & H2 & H3).
  - intros k' [<-|[]]. apply valid_level_accepted.
    exists "error"%string. split; [reflexivity|]. simpl. auto 10.
  - intros s. discriminate.
  - intros l'. discriminate.
  - split; [exact H1|]. split; [exact H2|]. apply H3; reflexivity.
Defined.

(** The claim as stated fails when an unrecognised name comes first: the
    mapping holds the number 2, and validation raises [InvalidArgument]. *)
Lemma validation_order_counterexample :
  prop_get (props (sample_heap !!! 7%positive)) "signaling" = VNumber (Int 2) /\
  validateLogLevels sample_heap (VObject 7%positive)
  = Throw (InvalidArgument INVALID_LOG_LEVEL_MESSAGE) /\
  setLevels sample_root (VObject 7%positive) sample_world
  = (Throw (InvalidArgument INVALID_LOG_LEVEL_MESSAGE), sample_world) /\
  Log (VString "media") (VString "room") (VObject 7%positive) sample_world
  = (Throw (InvalidArgument INVALID_LOG_LEVEL_MESSAGE), sample_world).
Proof. repeat split; vm_compute; reflexivity. Qed.

(* ===================================================================== *)
(** * 5. Further properties of the logger                                 *)
(* ===================================================================== *)

(** ** What each operation does to the world *)

Lemma log_world (dflt : JsVal) (this : LogInstance) (r : JsNum)
    (message : Message) (w w' : World) (res : Result LogInstance) :
  log dflt this r message w = (res, w') ->
  heap w' = heap w /\ now_iso w' = now_iso w /\
  (w' = w \/
   exists spec args,
     levels_at r = Some spec /\ res = Return this /\
     w' = emit (logFn spec, args) w).
Proof.
  unfold log. destruct (levels_at r) as [spec|].
  - destruct (logLevel_get dflt this (heap w)) as [current|e].
    + destruct (num_le current r); intros [= <- <-].
      * repeat split; try reflexivity. right. eauto.
      * repeat split; try reflexivity. left. reflexivity.
    + intros [= <- <-]. repeat split; try reflexivity. left. reflexivity.
  - intros [= <- <-]. repeat split; try reflexivity. left. reflexivity.
Qed.

Lemma Log_world (moduleName component logLevels : JsVal) (w w' : World)
    (res : Result LogInstance) :
  Log moduleName component logLevels w = (res, w') ->
  console w' = console w /\ now_iso w' = now_iso w /\
  (w' = w \/
   (exists inst, res = Return inst) /\
   heap w' = <[fresh (dom (heap w)) := empty_object]> (heap w)).
Proof.
  intros H.
  destruct (moduleName_ok moduleName) eqn:Hm;
    [|rewrite Log_bad_moduleName in H by assumption; injection H as <- <-; auto].
  destruct (truthy component) eqn:Hc;
    [|rewrite Log_no_component in H by assumption; injection H as <- <-; auto].
  destruct (String.eqb (typeof logLevels) "object") eqn:Ht.
  - apply typeof_object in Ht as [->|[l ->]].
    + rewrite Log_null in H by assumption. injection H as <- <-. auto.
    + rewrite Log_object in H by assumption.
      destruct (validateLogLevels (heap w) (VObject l)); injection H as <- <-; auto.
  - rewrite Log_non_object in H by assumption. injection H as <- <-.
    simpl. repeat split; try reflexivity. right. split; [eauto | reflexivity].
Qed.

Lemma setLevels_world (this : LogInstance) (levels : JsVal) (w w' : World)
    (res : Result LogInstance) :
  setLevels this levels w = (res, w') ->
  console w' = console w /\ now_iso w' = now_iso w /\
  ((exists e, res = Throw e) /\ w' = w \/
   res = Return this /\
   exists src,
     validateLogLevels (heap w) levels = Return tt /\
     own_props (heap w) levels = Some src /\
     heap w' =
     <[_logLevels this :=
         with_props (heap w !!! _logLevels this)
           (Object_assign (props (heap w !!! _logLevels this)) src)]> (heap w)).
Proof.
  unfold setLevels.
  destruct (validateLogLevels (heap w) levels) as [[]|e] eqn:Hv.
  - intros [= <- <-]. simpl. repeat split; try reflexivity. right.
    split; [reflexivity|].
    apply validateLogLevels_ok in Hv as (src & Hs & _). exists src.
    rewrite Hs. simpl. auto.
  - intros [= <- <-]. repeat split; try reflexivity. left. eauto.
Qed.

Lemma clone_if_supported_heap (e m : JsVal) (r : Result JsVal) (w w1 : World) :
  clone_if_supported e m w = (r, w1) ->
  w1 = w \/
  exists l clone,
    e = VObject l /\ cloneFn (heap w !!! l) = Some clone /\
    r = Return (VObject (fresh (dom (heap w)))) /\
    heap w1 = <[fresh (dom (heap w)) := clone (props (heap w !!! l)) m]> (heap w).
Proof.
  unfold clone_if_supported, clone_property. destruct e as [| | | | |l];
    try (intros [= <- <-]; left; reflexivity).
  destruct (cloneFn (heap w !!! l)) as [clone|] eqn:E.
  - intros [= <- <-]. right. exists l, clone. simpl. auto.
  - destruct (truthy _); intros [= <- <-]; left; reflexivity.
Qed.

Lemma throwFn_nullish (dflt : JsVal) (this : LogInstance) (e m : JsVal)
    (w : World) :
  e = VUndefined \/ e = VNull ->
  throwFn dflt this e m w = (Throw TypeError, w).
Proof. intros [->| ->]; reflexivity. Qed.

Lemma JsVal_nullish_dec (e : JsVal) :
  (e = VUndefined \/ e = VNull) \/ (e <> VUndefined /\ e <> VNull).
Proof. destruct e; auto; right; split; discriminate. Qed.

Lemma throwFn_world (dflt : JsVal) (this : LogInstance) (e m : JsVal)
    (w w' : World) (res : Result unit) :
  throwFn dflt this e m w = (res, w') ->
  now_iso w' = now_iso w /\
  heap w' = heap (snd (clone_if_supported e m w)) /\
  exists calls,
    console w' = console w ++ calls /\ (length calls <= 1)%nat /\
    Forall (fun c => fst c = console_error) calls.
Proof.
  intros H. destruct (JsVal_nullish_dec e) as [Hnull|[Hu Hn]].
  - rewrite throwFn_nullish in H by exact Hnull. injection H as <- <-.
    split; [reflexivity|]. split.
    + destruct Hnull as [->| ->]; reflexivity.
    + exists []. rewrite app_nil_r. simpl. auto.
  - rewrite throwFn_unfold in H by assumption.
    destruct (clone_if_supported e m w) as [[e1|x1] w1] eqn:Hc; simpl in H.
    + apply clone_if_supported_world in Hc as [Hcon Hnow].
      destruct (log dflt this Log_ERROR (MsgValue e1) w1) as [res2 w2] eqn:Hl.
      assert (Hw : w' = w2) by (destruct res2; injection H as _ <-; reflexivity).
      subst w2.
      apply log_world in Hl as (Hh & Hn2 & [->|(spec & args & Hs & _ & ->)]).
      * split; [exact Hnow|]. split; [reflexivity|].
        exists []. rewrite app_nil_r. simpl. auto.
      * split; [exact Hnow|]. split; [reflexivity|].
        exists [(logFn spec, args)]. simpl. rewrite Hcon.
        split; [reflexivity|]. split; [lia|].
        constructor; [|constructor]. vm_compute in Hs. injection Hs as <-.
        reflexivity.
    + apply clone_if_supported_world in Hc as [Hcon Hnow].
      injection H as <- <-. split; [exact Hnow|]. split; [reflexivity|].
      exists []. rewrite app_nil_r. simpl. auto.
Qed.

(** ** Level tables stay in order *)

Lemma lookup_total_lookup (h h' : Heap) (l : loc) :
  h' !! l = h !! l -> h' !!! l = h !!! l.
Proof. intros H. rewrite !lookup_total_alt, H. reflexivity. Qed.

Lemma table_valid_lookup (h h' : Heap) (l : loc) :
  h' !! l = h !! l -> table_valid h l -> table_valid h' l.
Proof.
  intros H [Ha Hv]. split; [rewrite H; exact Ha|].
  rewrite (lookup_total_lookup h h' l H). exact Hv.
Qed.

Lemma table_valid_alloc (h : Heap) (l : loc) (o : JsObject) :
  table_valid h l -> table_valid (<[fresh (dom h) := o]> h) l.
Proof.
  intros Hv. apply (table_valid_lookup h); [|exact Hv].
  apply lookup_insert_ne. intros Heq. destruct Hv as [[x Hx] _].
  rewrite <- Heq, fresh_unallocated in Hx. discriminate.
Qed.

Lemma api_step_table_valid (dflt : JsVal) (w w' : World) (l : loc) :
  api_step dflt w w' -> table_valid (heap w) l -> table_valid (heap w') l.
Proof.
  intros Hstep Hv.
  assert (HLog : forall m c lv r,
             Log m c lv w = (r, w') -> table_valid (heap w') l).
  { intros m c lv r H. apply Log_world in H as (_ & _ & [->|[_ ->]]);
      [exact Hv | apply table_valid_alloc, Hv]. }
  destruct Hstep as [m c lv w w' r H|this m c w w' r H|this lv w w' r Hprim H
                    |this rank msg w w' r H|this e m w w' r H].
  - eapply HLog, H.
  - eapply HLog, H.
  - destruct (setLevels this lv w) as [r0 w0] eqn:Hset.
    injection H as -> ->.
    pose proof (setLevels_world _ _ _ _ _ Hset)
      as (_ & _ & [[_ ->]|[-> (src & Hval & Hsrc & Hh)]]); [exact Hv|].
    destruct (decide (_logLevels this = l)) as [<-|Hne].
    + split; [rewrite Hh, lookup_insert_eq; eauto|].
      eapply setLevels_preserves_valid;
        [exact Hset | exact Hsrc | intros k; eapply Hprim, Hsrc | apply Hv].
    + apply (table_valid_lookup (heap w)); [|exact Hv].
      rewrite Hh. apply lookup_insert_ne, Hne.
  - apply log_world in H as (Hh & _). rewrite Hh. exact Hv.
  - apply throwFn_world in H as (_ & Hh & _). rewrite Hh.
    destruct (clone_if_supported e m w) as [e1 w1] eqn:Hc.
    apply clone_if_supported_heap in Hc
      as [->|(l0 & clone & _ & _ & _ & Hh1)]; simpl.
    + exact Hv.
    + rewrite Hh1. apply table_valid_alloc, Hv.
Qed.

(** X1.  Whatever the logger is asked to do, by whichever instances and
    with whatever outcomes, as long as the mappings passed to [setLevels]
    hold no objects, a level table whose values are level names stays one;
    so, with a default that is a level name, the [logLevel] getter of every
    instance on such a table whose module name is not the name of a member
    of [Object.prototype] keeps returning one of the ranks 0..4 and never
    raises. *)
Theorem tables_stay_valid (dflt : JsVal) (w w' : World) (this : LogInstance) :
  rtc (api_step dflt) w w' ->
  table_valid (heap w) (_logLevels this) ->
  valid_level dflt ->
  (forall h, is_inherited (ToString h (inst_moduleName this)) = false) ->
  table_valid (heap w') (_logLevels this) /\
  exists z, 0 <= z <= 4 /\ logLevel_get dflt this (heap w') = Return (Int z).
Proof.
  intros Hsteps Hv Hd Hni.
  assert (Hv' : table_valid (heap w') (_logLevels this)).
  { induction Hsteps as [w|w w1 w2 Hstep _ IH]; [exact Hv|].
    apply IH. eapply api_step_table_valid; eassumption. }
  split; [exact Hv'|].
  apply effective_level_defined; [apply Hv' | exact Hd | right; apply Hni].
Qed.

Lemma sample_table_valid : table_valid sample_heap 1%positive.
Proof.
  split; [eexists; vm_compute; reflexivity|].
  intros k [<-|[]]. exists "info"%string. split; [reflexivity | simpl; auto].
Defined.

Lemma tables_stay_valid_witness :
  exists w1 w2 z,
    setLevels sample_child (VObject 2%positive) sample_world = (Return sample_child, w1) /\
    setLevels sample_root (VObject 3%positive) w1 = (Throw TypeError, w2) /\
    0 <= z <= 4 /\
    logLevel_get sample_default sample_root (heap w2) = Return (Int z).
Proof.
  destruct (setLevels sample_child (VObject 2%positive) sample_world)
    as [r1 w1] eqn:H1.
  destruct (setLevels sample_root (VObject 3%positive) w1) as [r2 w2] eqn:H2.
  assert (Hr1 : r1 = Return sample_child)
    by (vm_compute in H1; injection H1 as <- _; reflexivity).
  subst r1.
  assert (Hw1 : heap w1 !!! 3%positive
                = with_props empty_object
                    [("media"%string, VString "error");
                     ("signaling"%string, VNumber (Int 2))])
    by (vm_compute in H1; injection H1 as <-; vm_compute; reflexivity).
  assert (Hr2 : r2 = Throw TypeError).
  { vm_compute in H1. injection H1 as <-.
    vm_compute in H2. injection H2 as <- _. reflexivity. }
  subst r2.
  assert (Hsteps : rtc (api_step sample_default) sample_world w2).
  { eapply rtc_l.
    - eapply step_setLevels; [|exact H1].
      intros src k Hs. vm_compute in Hs. injection Hs as <-.
      apply prop_get_primitive. repeat constructor; intros l; discriminate.
    - eapply rtc_l; [|apply rtc_refl].
      eapply step_setLevels; [|exact H2].
      intros src k Hs. simpl in Hs. rewrite Hw1 in Hs. injection Hs as <-.
      apply prop_get_primitive. repeat constructor; intros l; discriminate. }
  assert (Hd : valid_level sample_default)
    by (exists "warn"%string; split; [reflexivity | simpl; auto]).
  destruct (tables_stay_valid sample_default sample_world w2 sample_root
              Hsteps sample_table_valid Hd (fun _ => eq_refl))
    as (_ & z & Hz & Hl).
  exists w1, w2, z. auto.
Defined.

(** ** The wrappers *)

(** X2.  For an instance whose effective level is the integer [z], each of
    [debug], [info], [warn] and [error] returns the instance and never
    raises; it sends one message, to [console.log], [console.info],
    [console.warn] and [console.error] respectively and under the level name
    DEBUG, INFO, WARN and ERROR, exactly when [z] is at most 0, 1, 2 and 3;
    the arguments of the call follow the prefix one by one, not as one
    array. *)
Theorem wrappers_spread (dflt : JsVal) (this : LogInstance) (z : Z)
    (arguments : list JsVal) (w : World) (date time : string) :
  logLevel_get dflt this (heap w) = Return (Int z) ->
  split_on "T" (now_iso w) = [date; time] ->
  let sent (sink : Sink) (levelName : string) :=
    emit (sink,
          [VString date; VString time; VString "|"; VString levelName;
           VString "in"; VString (String.append (name_get this (heap w)) ":")]
          ++ arguments) w in
  debug dflt this arguments w
  = (Return this, if z <=? 0 then sent console_log "DEBUG"%string else w) /\
  info dflt this arguments w
  = (Return this, if z <=? 1 then sent console_info "INFO"%string else w) /\
  warn dflt this arguments w
  = (Return this, if z <=? 2 then sent console_warn "WARN"%string else w) /\
  error dflt this arguments w
  = (Return this, if z <=? 3 then sent console_error "ERROR"%string else w).
Proof.
  intros Hl Hiso sent. unfold debug, info, warn, error, sent.
  rewrite (log_at_descriptor dflt this Log_DEBUG
             {| name := "DEBUG"; logFn := console_log |} _ _ w eq_refl Hl).
  rewrite (log_at_descriptor dflt this Log_INFO
             {| name := "INFO"; logFn := console_info |} _ _ w eq_refl Hl).
  rewrite (log_at_descriptor dflt this Log_WARN
             {| name := "WARN"; logFn := console_warn |} _ _ w eq_refl Hl).
  rewrite (log_at_descriptor dflt this Log_ERROR
             {| name := "ERROR"; logFn := console_error |} _ _ w eq_refl Hl).
  rewrite Hiso. simpl.
  repeat split; match goal with |- context [?a <=? ?b] =>
                  destruct (a <=? b); reflexivity end.
Qed.

Lemma sample_root_level :
  logLevel_get sample_default sample_root (heap sample_world) = Return (Int 1).
Proof. vm_compute. reflexivity. Defined.

Lemma wrappers_spread_witness :
  debug sample_default sample_root [VString "a"; VNumber (Int 7)] sample_world
  = (Return sample_root, sample_world) /\
  error sample_default sample_root [VString "a"; VNumber (Int 7)] sample_world
  = (Return sample_root,
     emit (console_error,
           [VString "2020-01-02"; VString "03:04:05.678Z"; VString "|";
            VString "ERROR"; VString "in"; VString "room:";
            VString "a"; VNumber (Int 7)]) sample_world).
Proof.
  destruct (wrappers_spread sample_default sample_root 1
              [VString "a"; VNumber (Int 7)] sample_world
              "2020-01-02" "03:04:05.678Z" sample_root_level eq_refl)
    as (Hd & _ & _ & He).
  split; [exact Hd | exact He].
Defined.

(** ** [setLevels] twice, and what [setLevels] leaves alone *)

Lemma prop_set_same (ps : Props) (k : string) :
  In k (Object_keys ps) -> prop_set ps k (prop_get ps k) = ps.
Proof.
  induction ps as [|[k' v] r IH]; simpl; [intros []|].
  destruct (String.eqb k' k) eqn:E.
  - apply String.eqb_eq in E. subst k'. reflexivity.
  - intros [H|H].
    + apply String.eqb_neq in E. contradiction.
    + rewrite (IH H). reflexivity.
Qed.

(** Assigning to an object what it already holds changes nothing. *)
Lemma Object_assign_fix (target source : Props) :
  (forall k, In k (Object_keys source) ->
     In k (Object_keys target) /\ prop_get target k = prop_get source k) ->
  Object_assign target source = target.
Proof.
  unfold Object_assign. generalize (prop_get source) as f.
  generalize (Object_keys source) as ks. intros ks f.
  induction ks as [|k0 ks IH]; intros H; simpl; [reflexivity|].
  destruct (H k0 (or_introl eq_refl)) as [Hin <-].
  rewrite prop_set_same by exact Hin.
  apply IH. intros k Hk. apply H. right. exact Hk.
Qed.

Lemma Object_assign_idem (target source : Props) :
  Object_assign (Object_assign target source) source
  = Object_assign target source.
Proof.
  apply Object_assign_fix. intros k Hk. split.
  - apply Object_assign_keys_source, Hk.
  - apply Object_assign_get_in, Hk.
Qed.

Lemma Object_assign_self (ps : Props) : Object_assign ps ps = ps.
Proof. apply Object_assign_fix. intros k Hk. auto. Qed.

(** X3.  [setLevels] is idempotent for mappings whose values are not
    objects: after a successful call, the same call again succeeds and
    leaves the world exactly as the first call left it, also when the
    mapping passed is the shared table itself. *)
Theorem setLevels_idempotent (this : LogInstance) (levels : JsVal)
    (w w1 : World) (r : LogInstance) :
  (forall src k, own_props (heap w) levels = Some src ->
                 primitive (prop_get src k)) ->
  setLevels this levels w = (Return r, w1) ->
  setLevels this levels w1 = (Return this, w1).
Proof.
  intros Hprim H.
  apply setLevels_world in H
    as (_ & _ & [[[e He] _]|[_ (src & Hval & Hsrc & Hh)]]); [discriminate|].
  set (l := _logLevels this) in *.
  set (t := props (heap w !!! l)) in *.
  assert (Hsrc1 : own_props (heap w1) levels = Some src).
  { destruct levels as [| | | | |ls]; try exact Hsrc.
    simpl in *. injection Hsrc as Hsrc. f_equal.
    destruct (decide (l = ls)) as [<-|Hne].
    - rewrite Hh, lookup_total_insert_eq. simpl. fold t in Hsrc.
      rewrite <- Hsrc. apply Object_assign_self.
    - rewrite Hh, lookup_total_insert_ne by exact Hne. exact Hsrc. }
  assert (Hval1 : validateLogLevels (heap w1) levels = Return tt).
  { rewrite (validateLogLevels_primitive (heap w) (heap w1) levels src Hsrc Hsrc1);
      [exact Hval | intros k; eapply Hprim, Hsrc]. }
  assert (Htab : heap w1 !!! l
                 = with_props (heap w !!! l) (Object_assign t src))
    by (rewrite Hh; apply lookup_total_insert_eq).
  rewrite (setLevels_return this levels w1 src Hval1 Hsrc1). f_equal.
  fold l. transitivity (set_heap (heap w1) w1); [|apply set_heap_id].
  f_equal. rewrite Htab. simpl. rewrite Object_assign_idem.
  apply insert_id. rewrite Hh. apply lookup_insert_eq.
Qed.

Lemma setLevels_idempotent_witness :
  exists w1,
    setLevels sample_root (VObject 2%positive) sample_world = (Return sample_root, w1) /\
    setLevels sample_root (VObject 2%positive) w1 = (Return sample_root, w1).
Proof.
  eexists. split; [vm_compute; reflexivity|].
  eapply (setLevels_idempotent sample_root (VObject 2%positive) sample_world).
  - intros src k Hs. vm_compute in Hs. injection Hs as <-.
    apply prop_get_primitive. repeat constructor; intros l; discriminate.
  - vm_compute. reflexivity.
Defined.

(** The restriction is needed: when the mapping holds an object whose
    [toUpperCase] reads what the first call overwrites, the second call
    raises. *)
Lemma setLevels_twice_with_object :
  exists w1,
    setLevels sample_root (VObject 2%positive) sample_world_selfref
    = (Return sample_root, w1) /\
    setLevels sample_root (VObject 2%positive) w1
    = (Throw (InvalidArgument INVALID_LOG_LEVEL_MESSAGE), w1).
Proof. eexists. split; vm_compute; reflexivity. Qed.



Lemma valid_level_primitive (v : JsVal) (l : loc) : valid_level v -> v <> VObject l.
Proof. intros (s & -> & _). discriminate. Qed.



(** The configured value must not be an object: an instance on another
    table, whose entry is an object that answers [toUpperCase] from what the
    call overwrites, reads another level after the call. *)
Lemma setLevels_frame_with_object :
  validateLogLevels (heap sample_world_selfref) (VObject 2%positive) = Return tt /\
  logLevel_get sample_default sample_silent (heap sample_world_selfref)
  = Return (Int 2) /\
  fst (setLevels sample_root (VObject 3%positive) sample_world_selfref)
  = Return sample_root /\
  logLevel_get sample_default sample_silent
    (heap (snd (setLevels sample_root (VObject 3%positive)
                  sample_world_selfref)))
  = Throw (InvalidArgument INVALID_LOG_LEVEL_MESSAGE).
Proof. repeat split; vm_compute; reflexivity. Qed.

(** ** Construction on a table of the caller *)





(** ** Names, ranks and descriptors *)

(** X7.  Names and ranks round-trip through the descriptors.  The rank that
    [getLevelByName] returns for a string that is not numeric is the index
    of the descriptor named by the upper-cased string; and the name of the
    descriptor at any rank resolves back to that rank.  So a message logged
    at [getLevelByName(N)] carries the name and the sink of level [N]. *)
Theorem name_rank_roundtrip (h : Heap) :
  (forall s rank,
      is_numeric_string s = false ->
      getLevelByName h (VString s) = Return rank ->
      exists spec, levels_at rank = Some spec /\ name spec = toUpperCase s) /\
  (forall r spec,
      levels_at r = Some spec ->
      getLevelByName h (VString (name spec)) = Return r).
Proof.
  split.
  - intros s rank Hnum H. rewrite getLevelByName_string, Hnum in H.
    destruct (validateLogLevel (toUpperCase s)) as [[]|e] eqn:Hv; [|discriminate].
    apply validateLogLevel_ok in Hv. simpl in Hv.
    destruct Hv as [Hv|[Hv|[Hv|[Hv|[Hv|[]]]]]]; rewrite <- Hv in *;
      simpl in H; injection H as <-; eexists; split; reflexivity.
  - intros r spec H. destruct (levels_at_Some r spec H) as (z & -> & Hz).
    assert (Hcases : z = 0 \/ z = 1 \/ z = 2 \/ z = 3 \/ z = 4) by lia.
    destruct Hcases as [->|[->|[->|[->| ->]]]];
      vm_compute in H; injection H as <-; reflexivity.
Qed.

Lemma name_rank_roundtrip_witness :
  (exists spec, levels_at (Int 3) = Some spec /\ name spec = "ERROR"%string) /\
  getLevelByName sample_heap (VString "OFF") = Return (Int 4).
Proof.
  destruct (name_rank_roundtrip sample_heap) as [H1 H2]. split.
  - apply (H1 "eRRor"%string (Int 3)); reflexivity.
  - apply (H2 (Int 4) {| name := "OFF"; logFn := noop |}). reflexivity.
Defined.

(** ** Switching a module off and on *)




(** ** Who writes to the sinks, and what a failure leaves behind *)

(** X9.  Only [log] reaches the sinks.  The constructor, [createLog] and
    [setLevels] never call a sink, whatever their outcome.  A call of [log]
    never touches the heap and adds at most one call to the console, after
    those already made. *)
Theorem sinks_only_through_log (dflt : JsVal) (this : LogInstance) (w : World) :
  (forall m c lv, console (snd (Log m c lv w)) = console w) /\
  (forall m c, console (snd (createLog this m c w)) = console w) /\
  (forall lv, console (snd (setLevels this lv w)) = console w) /\
  (forall r message,
      heap (snd (log dflt this r message w)) = heap w /\
      exists calls,
        console (snd (log dflt this r message w)) = console w ++ calls /\
        (length calls <= 1)%nat).
Proof.
  split; [|split; [|split]].
  - intros m c lv. destruct (Log m c lv w) as [r w'] eqn:H.
    apply Log_world in H as (H & _). exact H.
  - intros m c. destruct (createLog this m c w) as [r w'] eqn:H.
    apply Log_world in H as (H & _). exact H.
  - intros lv. destruct (setLevels this lv w) as [r w'] eqn:H.
    apply setLevels_world in H as (H & _). exact H.
  - intros r message. destruct (log dflt this r message w) as [res w'] eqn:H.
    apply log_world in H as (Hh & _ & [->|(spec & args & _ & _ & ->)]); simpl.
    + split; [reflexivity|]. exists []. rewrite app_nil_r. simpl. auto.
    + split; [reflexivity|]. exists [(logFn spec, args)]. simpl. auto.
Qed.

(** X10.  A call that raises leaves no trace: when the constructor,
    [createLog], [log] or one of the wrappers raises, the world is exactly
    as it was before the call. *)
Theorem failure_changes_nothing (dflt : JsVal) (this : LogInstance)
    (w w' : World) (e : Exception) :
  (forall m c lv, Log m c lv w = (Throw e, w') -> w' = w) /\
  (forall m c, createLog this m c w = (Throw e, w') -> w' = w) /\
  (forall r message, log dflt this r message w = (Throw e, w') -> w' = w) /\
  (forall arguments,
      (debug dflt this arguments w = (Throw e, w') -> w' = w) /\
      (info dflt this arguments w = (Throw e, w') -> w' = w) /\
      (warn dflt this arguments w = (Throw e, w') -> w' = w) /\
      (error dflt this arguments w = (Throw e, w') -> w' = w)).
Proof.
  assert (HLog : forall m c lv, Log m c lv w = (Throw e, w') -> w' = w).
  { intros m c lv H. apply Log_world in H as (_ & _ & [H|[[i Hi] _]]);
      [exact H | discriminate]. }
  assert (Hlog : forall r message,
             log dflt this r message w = (Throw e, w') -> w' = w).
  { intros r message H.
    apply log_world in H as (_ & _ & [H|(spec & args & _ & Hr & _)]);
      [exact H | discriminate]. }
  split; [exact HLog|]. split; [intros m c; apply HLog|].
  split; [exact Hlog|]. intros arguments. repeat split; apply Hlog.
Qed.

Lemma failure_changes_nothing_witness :
  snd (Log (VString "media") (VString "room") (VObject 7%positive) sample_world)
  = sample_world /\
  snd (log sample_default sample_root (Int 5) (MsgValue VNull) sample_world)
  = sample_world.
Proof.
  split.
  - destruct (failure_changes_nothing sample_default sample_root sample_world
                (snd (Log (VString "media") (VString "room")
                        (VObject 7%positive) sample_world))
                (InvalidArgument INVALID_LOG_LEVEL_MESSAGE)) as (H & _).
    apply (H (VString "media") (VString "room") (VObject 7%positive)).
    vm_compute. reflexivity.
  - destruct (failure_changes_nothing sample_default sample_root sample_world
                (snd (log sample_default sample_root (Int 5) (MsgValue VNull)
                        sample_world))
                (InvalidArgument "Invalid log level")) as (_ & _ & H & _).
    apply (H (Int 5) (MsgValue VNull)). vm_compute. reflexivity.
Defined.

(** ** Default tables *)

(** X11.  A table that the constructor creates by default is a new object:
    it is none of the objects that exist at the time, in particular the
    table of no other instance, and a [setLevels] through the new instance
    leaves every object that existed before as it is. *)
Theorem default_table_is_private (moduleName component logLevels : JsVal)
    (w w1 : World) (inst : LogInstance) :
  String.eqb (typeof logLevels) "object" = false ->
  Log moduleName component logLevels w = (Return inst, w1) ->
  heap w !! _logLevels inst = None /\
  (forall l, is_Some (heap w !! l) ->
     _logLevels inst <> l /\ heap w1 !! l = heap w !! l) /\
  (forall levels r w2 l,
     is_Some (heap w !! l) ->
     setLevels inst levels w1 = (r, w2) ->
     heap w2 !! l = heap w !! l).
Proof.
  intros Ht H. apply Log_returns in H
    as (_ & _ & _ & _ & _ & [[-> _]|(_ & Hl & Hh)]); [discriminate|].
  assert (Hnone : heap w !! _logLevels inst = None)
    by (rewrite Hl; apply fresh_unallocated).
  assert (Hne : forall l, is_Some (heap w !! l) -> _logLevels inst <> l).
  { intros l [x Hx] Heq. rewrite Heq in Hnone. congruence. }
  split; [exact Hnone|]. split.
  - intros l Hal. split; [apply Hne, Hal|].
    rewrite Hh. apply lookup_insert_ne, Hne, Hal.
  - intros levels r w2 l Hal Hset.
    apply setLevels_world in Hset as (_ & _ & [[_ ->]|[_ (src & _ & _ & Hh2)]]).
    + rewrite Hh. apply lookup_insert_ne, Hne, Hal.
    + rewrite Hh2, lookup_insert_ne by (apply Hne, Hal).
      rewrite Hh. apply lookup_insert_ne, Hne, Hal.
Qed.

Lemma default_table_is_private_witness :
  exists inst w1,
    Log (VString "media") (VString "room") VUndefined sample_world = (Return inst, w1) /\
    _logLevels inst <> 1%positive /\
    heap (snd (setLevels inst (VObject 2%positive) w1)) !! 1%positive
    = sample_heap !! 1%positive.
Proof.
  destruct (Log (VString "media") (VString "room") VUndefined sample_world)
    as [r w1] eqn:H.
  assert (Hr : exists inst, r = Return inst)
    by (vm_compute in H; injection H as <- _; eauto).
  destruct Hr as [inst ->]. exists inst, w1. split; [reflexivity|].
  destruct (default_table_is_private _ _ VUndefined _ _ _ eq_refl H)
    as (_ & Hold & Hset).
  assert (Hal : is_Some (heap sample_world !! 1%positive))
    by (eexists; vm_compute; reflexivity).
  split; [apply Hold, Hal|].
  apply (Hset (VObject 2%positive)
              (fst (setLevels inst (VObject 2%positive) w1)) _ _ Hal).
  apply surjective_pairing.
Defined.

(** X12.  A [levels] argument that is not of type object, whether absent,
    a boolean, a number or a string, never makes construction fail: with an
    acceptable module name and a truthy component the constructor returns an
    instance on a new, empty table and calls no sink.  The instance's
    effective level is whatever the default level resolves to, unless the
    module name is the name of a member of [Object.prototype], and then
    reading the level raises a [TypeError]. *)
Theorem non_object_levels_default (dflt moduleName component logLevels : JsVal)
    (w : World) :
  moduleName_ok moduleName = true -> truthy component = true ->
  String.eqb (typeof logLevels) "object" = false ->
  exists inst w',
    Log moduleName component logLevels w = (Return inst, w') /\
    inst_moduleName inst = moduleName /\
    heap w' !! _logLevels inst = Some empty_object /\
    console w' = console w /\
    logLevel_get dflt inst (heap w')
    = if is_inherited (ToString (heap w') moduleName) then Throw TypeError
      else getLevelByName (heap w') dflt.
Proof.
  intros Hm Hc Ht. do 2 eexists.
  split; [apply Log_non_object; assumption|]. simpl.
  split; [reflexivity|]. split; [apply lookup_insert_eq|].
  split; [reflexivity|].
  unfold logLevel_get. simpl. rewrite lookup_total_insert_eq.
  rewrite property_read_not_own by (simpl; tauto).
  destruct (is_inherited _); reflexivity.
Qed.

Lemma non_object_levels_default_witness :
  (exists inst w',
    Log VUndefined (VNumber (Int 7)) (VString "debug") sample_world
    = (Return inst, w') /\
    logLevel_get sample_default inst (heap w') = Return (Int 2)) /\
  (exists inst w',
    Log (VString "constructor") (VNumber (Int 7)) VUndefined sample_world
    = (Return inst, w') /\
    logLevel_get sample_default inst (heap w') = Throw TypeError).
Proof.
  split.
  - destruct (non_object_levels_default sample_default VUndefined
                (VNumber (Int 7)) (VString "debug") sample_world
                eq_refl eq_refl eq_refl)
      as (inst & w' & H & _ & _ & _ & Hl).
    exists inst, w'. split; [exact H|]. rewrite Hl. reflexivity.
  - destruct (non_object_levels_default sample_default (VString "constructor")
                (VNumber (Int 7)) VUndefined sample_world
                eq_refl eq_refl eq_refl)
      as (inst & w' & H & _ & _ & _ & Hl).
    exists inst, w'. split; [exact H|]. rewrite Hl. reflexivity.
Defined.

(** ** When the level cannot be resolved *)

(** X13.  When the effective level cannot be resolved, because the
    configured or default level is not a level, the error of the resolution
    takes over: [log] at a rank that has a descriptor raises it and sends
    nothing, and [throwFn], for an error that is not [undefined] or [null]
    and whose clone step completes, raises it in place of the error it was
    given.  When the clone step itself raises, because [clone] is truthy
    and not a function, that [TypeError] comes first. *)
Theorem unresolved_level_takes_over (dflt : JsVal) (this : LogInstance)
    (x : Exception) (w : World) :
  (forall r spec message,
      levels_at r = Some spec ->
      logLevel_get dflt this (heap w) = Throw x ->
      log dflt this r message w = (Throw x, w)) /\
  (forall e m e' w1,
      e <> VUndefined -> e <> VNull ->
      clone_if_supported e m w = (Return e', w1) ->
      logLevel_get dflt this (heap w1) = Throw x ->
      throwFn dflt this e m w = (Throw x, w1)) /\
  (forall e m v,
      e <> VUndefined -> e <> VNull ->
      clone_property (heap w) e = CloneData v -> truthy v = true ->
      throwFn dflt this e m w = (Throw TypeError, w)).
Proof.
  split; [|split].
  - intros r spec message Hs Hl. unfold log. rewrite Hs, Hl. reflexivity.
  - intros e m e' w1 Hu Hn Hc Hl. rewrite throwFn_unfold, Hc by assumption.
    unfold log. simpl. rewrite Hl. reflexivity.
  - intros e m v Hu Hn Hc Ht. rewrite throwFn_unfold by assumption.
    unfold clone_if_supported. rewrite Hc, Ht. reflexivity.
Qed.

Lemma unresolved_level_takes_over_witness :
  warn (VString "verbose") sample_child [VString "x"] sample_world
  = (Throw (InvalidArgument INVALID_LOG_LEVEL_MESSAGE), sample_world) /\
  throwFn (VString "verbose") sample_child (VObject 6%positive) (VString "m")
    sample_world
  = (Throw (InvalidArgument INVALID_LOG_LEVEL_MESSAGE), sample_world) /\
  throwFn (VString "verbose") sample_child (VObject 10%positive) (VString "m")
    sample_world_clone_data
  = (Throw TypeError, sample_world_clone_data).
Proof.
  destruct (unresolved_level_takes_over (VString "verbose") sample_child
              (InvalidArgument INVALID_LOG_LEVEL_MESSAGE) sample_world)
    as (Hlog & Hthrow & _).
  destruct (unresolved_level_takes_over (VString "verbose") sample_child
              (InvalidArgument INVALID_LOG_LEVEL_MESSAGE) sample_world_clone_data)
    as (_ & _ & Hclone).
  split; [|split].
  - apply (Hlog Log_WARN {| name := "WARN"; logFn := console_warn |});
      reflexivity.
  - apply (Hthrow (VObject 6%positive) (VString "m") (VObject 6%positive));
      try discriminate; reflexivity.
  - apply (Hclone (VObject 10%positive) (VString "m") (VNumber (Int 5)));
      try discriminate; reflexivity.
Defined.

(** ** The level of a child *)

(** X14.  On a table that passes validation, [createLog] with an acceptable
    module name and a truthy component always succeeds and changes nothing;
    the child carries the module name given and reads, as its effective
    level, the level of the table's entry for that name.  When the table
    has no entry for the name, the child reads the level of the default,
    unless the name is that of a member of [Object.prototype], and then
    reading the level raises a [TypeError]. *)
Theorem createLog_child_level (dflt : JsVal) (p : LogInstance)
    (moduleName component : JsVal) (w : World) :
  moduleName_ok moduleName = true -> truthy component = true ->
  validateLogLevels (heap w) (VObject (_logLevels p)) = Return tt ->
  exists child,
    createLog p moduleName component w = (Return child, w) /\
    inst_moduleName child = moduleName /\
    _logLevels child = _logLevels p /\
    let table := props (heap w !!! _logLevels p) in
    let k := ToString (heap w) moduleName in
    (In k (Object_keys table) ->
     logLevel_get dflt child (heap w) = getLevelByName (heap w) (prop_get table k)) /\
    (~ In k (Object_keys table) -> is_inherited k = false ->
     logLevel_get dflt child (heap w) = getLevelByName (heap w) dflt) /\
    (~ In k (Object_keys table) -> is_inherited k = true ->
     logLevel_get dflt child (heap w) = Throw TypeError).
Proof.
  intros Hm Hc Hv. eexists. split.
  - unfold createLog. rewrite Log_object by assumption. rewrite Hv. reflexivity.
  - simpl. split; [reflexivity|]. split; [reflexivity|].
    unfold logLevel_get. simpl. split; [|split].
    + intros Hin. apply validateLogLevels_ok in Hv as (ps & [= <-] & Hall).
      rewrite (property_read_own _ _ Hin).
      rewrite (accepted_truthy _ _ (Hall _ Hin)). reflexivity.
    + intros Hout Hni. rewrite (property_read_not_own _ _ Hout), Hni.
      reflexivity.
    + intros Hout Hi. rewrite (property_read_not_own _ _ Hout), Hi.
      reflexivity.
Qed.

Lemma createLog_child_level_witness :
  (exists child,
    createLog sample_root (VString "signaling") (VString "pc") sample_world
    = (Return child, sample_world) /\
    logLevel_get sample_default child sample_heap = Return (Int 2)) /\
  (exists child,
    createLog sample_root (VString "constructor") (VString "pc") sample_world
    = (Return child, sample_world) /\
    logLevel_get sample_default child sample_heap = Throw TypeError).
Proof.
  split.
  - destruct (createLog_child_level sample_default sample_root
                (VString "signaling") (VString "pc") sample_world
                eq_refl eq_refl eq_refl) as (child & H & _ & _ & _ & Hout & _).
    exists child. split; [exact H|].
    change sample_heap with (heap sample_world). rewrite Hout; [reflexivity| |reflexivity].
    simpl. intros [Hk|[]]. discriminate Hk.
  - destruct (createLog_child_level sample_default sample_root
                (VString "constructor") (VString "pc") sample_world
                eq_refl eq_refl eq_refl) as (child & H & _ & _ & _ & _ & Hinh).
    exists child. split; [exact H|].
    change sample_heap with (heap sample_world). rewrite Hinh; [reflexivity| |reflexivity].
    simpl. intros [Hk|[]]. discriminate Hk.
Defined.

(** ** What a table can hold *)

(** X15.  A numeric string is never accepted as a table value, although
    [getLevelByName] resolves it: a mapping with such a value fails
    validation, so [setLevels] raises and changes nothing, and so does
    construction on it.  The levels a table holds are therefore names, never
    numeric ranks. *)
Theorem numeric_levels_rejected (this : LogInstance) (levels : JsVal)
    (w : World) (src : Props) (k s : string) :
  own_props (heap w) levels = Some src ->
  In k (Object_keys src) ->
  prop_get src k = VString s ->
  is_numeric_string s = true ->
  getLevelByName (heap w) (VString s) = Return (parseInt10 s) /\
  exists e,
    validateLogLevels (heap w) levels = Throw e /\
    setLevels this levels w = (Throw e, w) /\
    (forall moduleName component l,
        levels = VObject l ->
        moduleName_ok moduleName = true -> truthy component = true ->
        Log moduleName component levels w = (Throw e, w)).
Proof.
  intros Hs Hk Hget Hnum. split.
  - rewrite getLevelByName_string, Hnum. reflexivity.
  - destruct (validateLogLevels (heap w) levels) as [[]|e] eqn:Hv.
    + apply validateLogLevels_ok in Hv as (ps & Hps & Hall).
      rewrite Hs in Hps. injection Hps as <-.
      specialize (Hall k Hk). rewrite Hget in Hall.
      apply accepted_string in Hall as (s' & [= <-] & Hname).
      apply level_name_not_numeric in Hname. congruence.
    + exists e. split; [reflexivity|]. split; [apply setLevels_throw, Hv|].
      intros m c l -> Hm Hc. rewrite Log_object by assumption.
      rewrite Hv. reflexivity.
Qed.

Lemma numeric_levels_rejected_witness :
  getLevelByName (heap sample_world_numeric) (VString "2") = Return (Int 2) /\
  exists e,
    setLevels sample_root (VObject 1%positive) sample_world_numeric
    = (Throw e, sample_world_numeric).
Proof.
  assert (Hs : own_props (heap sample_world_numeric) (VObject 1%positive)
               = Some [("media"%string, VString "2")])
    by (vm_compute; reflexivity).
  destruct (numeric_levels_rejected sample_root (VObject 1%positive)
              sample_world_numeric
              [("media"%string, VString "2")] "media" "2"
              Hs (or_introl eq_refl) eq_refl eq_refl)
    as (Hg & e & _ & Hset & _).
  split; [exact Hg|]. exists e. exact Hset.
Defined.


